(** * SoundScape server: geo-tagged recording store

    A shallow embedding of [server.js]: the upload middleware (multer
    configuration), the two route handlers of [/api/recordings] and the
    final error-handling middleware, together with the properties of
    ingestion and of the proximity search.

    Conventions of the model.
    - A JavaScript number is a real number, [NaN] or a signed infinity.
      [parseFloat] rounds the decimal it reads to the nearest binary64
      value, with its overflow and its underflow.  The arithmetic of the
      SQL expression is taken over the reals: the distance of a row is
      the exact value of the expression, not its binary64 evaluation by
      the database engine.
    - Query and form fields are optional strings ([None] is [undefined]),
      given by the bytes of their UTF-8 encoding.
    - The table [Sounds] is the list of its rows in insertion order
      (rowid order, rows are never deleted); the upload directory is the
      finite set of the file names it holds.
    - What the environment decides (clock, random suffix, failures of the
      database or of the file system) is an explicit input of a request. *)

From Stdlib Require Import Reals Lra Lia ZArith String Ascii List Bool Sorted.
From Stdlib Require Import Floats.SpecFloat.
From stdpp Require Import base decidable option list sorting gmap sets strings pretty.

Local Open Scope string_scope.

(** Comparisons of real numbers are decided by the order of [R]. *)
#[global] Instance Rlt_decision (x y : R) : Decision (x < y)%R := Rlt_dec x y.
#[global] Instance Rle_decision (x y : R) : Decision (x <= y)%R := Rle_dec x y.
#[global] Instance R_eq_decision : EqDecision R := Req_dec_T.

(** ** JavaScript values *)

Module JS.

Inductive number : Type :=
| NaN
| Infinity (negative : bool)
| Num (x : R).

(** [ToBoolean] on a number: [NaN], [+0] and [-0] are falsy. *)
Definition falsy (n : number) : Prop :=
  match n with
  | NaN => True
  | Infinity _ => False
  | Num x => x = 0%R
  end.

Definition falsy_dec (n : number) : {falsy n} + {~ falsy n}.
Proof.
  destruct n as [ | b | x]; simpl.
  - left; exact I.
  - right; intros [].
  - apply Req_dec_T.
Defined.

(** [Number.isFinite]. *)
Definition finite (n : number) : bool :=
  match n with
  | Num _ => true
  | _ => false
  end.

(** A number below zero. *)
Definition negative (n : number) : Prop :=
  match n with
  | NaN => False
  | Infinity b => b = true
  | Num x => (x < 0)%R
  end.

(** [a || b] on numbers. *)
Definition or_else (a b : number) : number :=
  if falsy_dec a then b else a.

(** [a / k] for a finite, positive constant [k]. *)
Definition div_const (a : number) (k : R) : number :=
  match a with
  | NaN => NaN
  | Infinity b => Infinity b
  | Num x => Num (x / k)
  end.

(** [!v] for a value that is [undefined] or a string: only [undefined]
    and the empty string are falsy. *)
Definition truthy (v : option string) : bool :=
  match v with
  | None => false
  | Some s => negb (String.eqb s "")
  end.

(** *** [parseFloat]

    The longest prefix of the trimmed input that is a [StrDecimalLiteral]
    is read; when there is none the result is [NaN].  The literal is
    first read into an exact decimal, which is then rounded to binary64
    (both steps are executable) and given its value. *)

Inductive literal : Type :=
| LitNaN
| LitInfinity (negative : bool)
| LitDecimal (negative : bool) (mantissa : N) (exp10 : Z).

(** [StrWhiteSpaceChar]: the white space and the line terminators.
    Those of the ASCII range are one byte: TAB, LF, VT, FF, CR, SP. *)
Definition is_white_space (c : ascii) : bool :=
  let n := nat_of_ascii c in
  ((9 <=? n) && (n <=? 13))%nat || (n =? 32)%nat.

(** U+00A0, in two bytes. *)
Definition is_white_space2 (c1 c2 : ascii) : bool :=
  ((nat_of_ascii c1 =? 194) && (nat_of_ascii c2 =? 160))%nat.

(** In three bytes: U+1680, U+2000 to U+200A, U+2028, U+2029, U+202F,
    U+205F, U+3000 and U+FEFF. *)
Definition is_white_space3 (c1 c2 c3 : ascii) : bool :=
  let n1 := nat_of_ascii c1 in
  let n2 := nat_of_ascii c2 in
  let n3 := nat_of_ascii c3 in
  ((n1 =? 225) && (n2 =? 154) && (n3 =? 128))%nat
  || ((n1 =? 226) && (n2 =? 128)
      && (((128 <=? n3) && (n3 <=? 138)) || (n3 =? 168) || (n3 =? 169)
          || (n3 =? 175)))%nat
  || ((n1 =? 226) && (n2 =? 129) && (n3 =? 159))%nat
  || ((n1 =? 227) && (n2 =? 128) && (n3 =? 128))%nat
  || ((n1 =? 239) && (n2 =? 187) && (n3 =? 191))%nat.

Definition is_digit (c : ascii) : bool :=
  let n := nat_of_ascii c in ((48 <=? n) && (n <=? 57))%nat.

Definition digit_value (c : ascii) : N := (N_of_ascii c - 48)%N.

Fixpoint trim_start (s : string) : string :=
  match s with
  | String c1 r1 =>
      if is_white_space c1 then trim_start r1
      else
        match r1 with
        | String c2 r2 =>
            if is_white_space2 c1 c2 then trim_start r2
            else
              match r2 with
              | String c3 r3 =>
                  if is_white_space3 c1 c2 c3 then trim_start r3 else s
              | EmptyString => s
              end
        | EmptyString => s
        end
  | EmptyString => s
  end.

(** Reads a maximal run of decimal digits: the accumulated value, the
    number of digits read and the rest of the input. *)
Fixpoint read_digits (s : string) (acc : N) (count : nat) : N * nat * string :=
  match s with
  | String c r =>
      if is_digit c then read_digits r (acc * 10 + digit_value c)%N (S count)
      else (acc, count, s)
  | EmptyString => (acc, count, s)
  end.

Definition read_sign (s : string) : bool * string :=
  match s with
  | String "-" r => (true, r)
  | String "+" r => (false, r)
  | _ => (false, s)
  end.

(** [ExponentPart]: taken only when at least one digit follows. *)
Definition read_exponent (s : string) : Z :=
  match s with
  | String c r =>
      if (Ascii.eqb c "e" || Ascii.eqb c "E")%bool then
        let '(neg, r') := read_sign r in
        let '(v, k, _) := read_digits r' 0%N 0%nat in
        match k with
        | O => 0%Z
        | S _ => if neg then (- Z.of_N v)%Z else Z.of_N v
        end
      else 0%Z
  | EmptyString => 0%Z
  end.

Definition read_unsigned (s : string) : option (N * Z) :=
  let '(m1, k1, r1) := read_digits s 0%N 0%nat in
  let '(m2, k2, r2) :=
    match r1 with
    | String "." r => read_digits r m1 0%nat
    | _ => (m1, 0%nat, r1)
    end in
  match (k1 + k2)%nat with
  | O => None
  | S _ => Some (m2, (read_exponent r2 - Z.of_nat k2)%Z)
  end.

Definition read_literal (s : string) : literal :=
  let '(neg, r) := read_sign (trim_start s) in
  if String.prefix "Infinity" r then LitInfinity neg
  else match read_unsigned r with
       | Some (m, e) => LitDecimal neg m e
       | None => LitNaN
       end.

(** The binary64 format. *)
Definition prec : Z := 53.
Definition emax : Z := 1024.

(** The decimal [m * 10^e] rounded to the nearest binary64 value, ties
    to even: a product of integers is rounded as it is, a quotient is
    divided with the position of the remainder kept. *)
Definition to_binary64 (negative : bool) (m : N) (e : Z) : spec_float :=
  match m with
  | N0 => S754_zero negative
  | Npos p =>
      match e with
      | Zneg k =>
          SFdiv prec emax (S754_finite negative p 0)
            (S754_finite false (10 ^ k)%positive 0)
      | _ =>
          binary_normalize prec emax
            (if negative then - (Zpos p * 10 ^ e) else Zpos p * 10 ^ e)%Z 0 false
      end
  end.

(** The real number [m * 2^e]. *)
Definition scaled (m : positive) (e : Z) : R :=
  match e with
  | Zneg k => (IZR (Zpos m) / IZR (2 ^ Zpos k))%R
  | _ => IZR (Zpos m * 2 ^ e)
  end.

Definition binary64_value (f : spec_float) : number :=
  match f with
  | S754_zero _ => Num 0
  | S754_infinity negative => Infinity negative
  | S754_nan => NaN
  | S754_finite negative m e =>
      Num (if negative then - scaled m e else scaled m e)%R
  end.

Definition literal_value (l : literal) : number :=
  match l with
  | LitNaN => NaN
  | LitInfinity b => Infinity b
  | LitDecimal negative m e => binary64_value (to_binary64 negative m e)
  end.

Definition parseFloat (s : string) : number := literal_value (read_literal s).

End JS.

(** ** Great-circle distance *)

Module Geo.
Local Open Scope R_scope.

(** SQLite's [radians(X)]. *)
Definition radians (x : R) : R := x * PI / 180.

(** The argument of [acos] in the query text: [latitude], [longitude]
    are the replacements, [lat], [lng] the columns of the row. *)
Definition cos_angle (latitude longitude lat lng : R) : R :=
  cos (radians latitude) * cos (radians lat)
  * cos (radians lng - radians longitude)
  + sin (radians latitude) * sin (radians lat).

(** [6371 * acos(...) AS distance]. *)
Definition distance (latitude longitude lat lng : R) : R :=
  6371 * acos (cos_angle latitude longitude lat lng).

(** The haversine formula as the specification writes it, with
    [R = 6371] and the angles converted to radians. *)
Definition hav (lat1 lng1 lat2 lng2 : R) : R :=
  Rsqr (sin ((radians lat2 - radians lat1) / 2))
  + cos (radians lat1) * cos (radians lat2)
    * Rsqr (sin ((radians lng2 - radians lng1) / 2)).

Definition haversine (lat1 lng1 lat2 lng2 : R) : R :=
  2 * 6371 * asin (sqrt (hav lat1 lng1 lat2 lng2)).

Definition valid_latitude (x : R) : Prop := -90 <= x <= 90.
Definition valid_longitude (x : R) : Prop := -180 <= x <= 180.

End Geo.

(** ** The persisted state *)

(** A row of the table [Sounds] (the model [Sound]); the timestamps that
    the ORM adds play no role and are left out. *)
Module Sound.
Record t : Type := {
  id : nat;
  filename : string;
  url : string;
  lat : JS.number;
  lng : JS.number;
  mimetype : string;
  size : N
}.
End Sound.

(** [uploads]: the names of the files in [uploadDir];
    [Sounds]: the rows of the table, oldest first. *)
Record store : Type := {
  uploads : gset string;
  Sounds : list Sound.t
}.

(** ** Responses *)

Inductive body : Type :=
| Error (message : string)
| Recording (row : Sound.t)
| Recordings (rows : list (Sound.t * R)).

Record response : Type := { status : nat; json : body }.

(** What an [async] handler does with a request: it sends a response, or
    its promise rejects before any response was sent. *)
Inductive outcome : Type :=
| Sent (r : response)
| Rejected.

(** The error-handling middleware, the last one of the application. *)
Definition error_middleware : response :=
  {| status := 500; json := Error "Something went wrong!" |}.

(** ** Upload middleware: [upload.single('audio')] *)

Module Upload.

(** The file part of a multipart request: [extension] is
    [path.extname(file.originalname)], [bytes] the length of the payload. *)
Record part : Type := {
  fieldname : string;
  extension : string;
  mimetype : string;
  bytes : N
}.

(** [req.file]; its [path] is [uploadDir/filename]. *)
Record file : Type := {
  filename : string;
  file_mimetype : string;
  size : N
}.

(** [now] is [Date.now()], [random] is [Math.round(Math.random() * 1e9)]. *)
Record clock : Type := { now : N; random : N }.

Definition allowedTypes : list string :=
  ["audio/mpeg"; "audio/wav"; "audio/webm"].

(** [fileFilter]: [true] accepts the file, [false] passes an [Error]. *)
Definition fileFilter (p : part) : bool :=
  bool_decide (mimetype p ∈ allowedTypes).

(** [limits.fileSize]. *)
Definition fileSize : N := 10 * 1024 * 1024.

(** [storage.filename]. *)
Definition uniqueSuffix (c : clock) : string :=
  pretty (now c) ++ "-" ++ pretty (random c).

Definition storage_filename (c : clock) (p : part) : string :=
  uniqueSuffix c ++ extension p.

Inductive result : Type :=
| Failed (message : string)
| NoFile
| Stored (f : file).

(** The middleware on a request with at most one file part.  The filter
    runs before the storage engine is given the file; a file that
    exceeds the limit is cut while it is streamed to its destination and
    the destination is removed again; the storage itself does not fail. *)
Definition single (c : clock) (p : option part) (dir : gset string)
  : gset string * result :=
  match p with
  | None => (dir, NoFile)
  | Some p =>
      if negb (String.eqb (fieldname p) "audio") then
        (dir, Failed "Unexpected field")
      else if negb (fileFilter p) then
        (dir, Failed "Invalid file type. Only audio files are allowed.")
      else if (fileSize <? bytes p)%N then
        (dir ∖ {[ storage_filename c p ]}, Failed "File too large")
      else
        ({[ storage_filename c p ]} ∪ dir,
         Stored {| filename := storage_filename c p;
                   file_mimetype := mimetype p;
                   size := bytes p |})
  end.

End Upload.

(** ** [POST /api/recordings] *)

Module Ingest.

(** [req.body]. *)
Record form : Type := { lat : option string; lng : option string }.

(** What the environment decides during the handler: whether
    [Sound.create] throws, and whether the first and the second call of
    [fs.unlink] in this request throw. *)
Record faults : Type := {
  create_fails : bool;
  unlink1_fails : bool;
  unlink2_fails : bool
}.

(** [fs.unlink(req.file.path)]: [None] when it throws. *)
Definition unlink (fails : bool) (f : Upload.file) (dir : gset string)
  : option (gset string) :=
  if fails then None else Some (dir ∖ {[ Upload.filename f ]}).

(** The row that [Sound.create] writes. *)
Definition new_row (f : Upload.file) (lat lng : string) (table : list Sound.t)
  : Sound.t :=
  {| Sound.id := S (length table);
     Sound.filename := Upload.filename f;
     Sound.url := "/uploads/" ++ Upload.filename f;
     Sound.lat := JS.parseFloat lat;
     Sound.lng := JS.parseFloat lng;
     Sound.mimetype := Upload.file_mimetype f;
     Sound.size := Upload.size f |}.

(** The [catch] block, entered with the directory [dir]; [fails] is the
    fault of the call of [fs.unlink] made here. *)
Definition catch_block (fails : bool) (file : option Upload.file)
    (dir : gset string) : gset string * outcome :=
  match file with
  | None => (dir, Sent {| status := 500; json := Error "Failed to save recording" |})
  | Some f =>
      match unlink fails f dir with
      | None => (dir, Rejected)
      | Some dir' =>
          (dir', Sent {| status := 500; json := Error "Failed to save recording" |})
      end
  end.

Definition handler (ft : faults) (file : option Upload.file) (b : form)
    (st : store) : store * outcome :=
  match file with
  | None =>
      (st, Sent {| status := 400; json := Error "No audio file uploaded" |})
  | Some f =>
      if negb (JS.truthy (lat b)) || negb (JS.truthy (lng b)) then
        match unlink (unlink1_fails ft) f (uploads st) with
        | Some dir' =>
            ({| uploads := dir'; Sounds := Sounds st |},
             Sent {| status := 400; json := Error "Missing coordinates" |})
        | None =>
            let '(dir', o) := catch_block (unlink2_fails ft) file (uploads st) in
            ({| uploads := dir'; Sounds := Sounds st |}, o)
        end
      else if create_fails ft then
        let '(dir', o) := catch_block (unlink1_fails ft) file (uploads st) in
        ({| uploads := dir'; Sounds := Sounds st |}, o)
      else
        let recording :=
          new_row f (default "" (lat b)) (default "" (lng b)) (Sounds st) in
        ({| uploads := uploads st; Sounds := Sounds st ++ [recording] |},
         Sent {| status := 201; json := Recording recording |})
  end.

(** The route: the upload middleware, then the handler; an error of the
    middleware goes to the error-handling middleware. *)
Definition route (c : Upload.clock) (ft : faults) (p : option Upload.part)
    (b : form) (st : store) : store * outcome :=
  match Upload.single c p (uploads st) with
  | (dir, Upload.Failed _) =>
      ({| uploads := dir; Sounds := Sounds st |}, Sent error_middleware)
  | (dir, Upload.NoFile) =>
      handler ft None b {| uploads := dir; Sounds := Sounds st |}
  | (dir, Upload.Stored f) =>
      handler ft (Some f) b {| uploads := dir; Sounds := Sounds st |}
  end.

End Ingest.

(** ** [GET /api/recordings] *)

Module Search.

(** [req.query]. *)
Record query : Type := {
  lat : option string;
  lng : option string;
  radius : option string
}.

(** The column [distance] of the inner [SELECT], for the replacements
    [:latitude] and [:longitude]: a column that is not a finite number
    makes the expression [NULL].  The statement is only run with finite
    replacements (see [throws]). *)
Definition sql_distance (latitude longitude : JS.number) (row : Sound.t)
  : option R :=
  match latitude, longitude, Sound.lat row, Sound.lng row with
  | JS.Num a, JS.Num b, JS.Num c, JS.Num d => Some (Geo.distance a b c d)
  | _, _, _, _ => None
  end.

Definition select_distance (latitude longitude : JS.number)
    (table : list Sound.t) : list (Sound.t * option R) :=
  map (fun row => (row, sql_distance latitude longitude row)) table.

(** [distance < :radius] for a distance that is not [NULL]; the
    comparison only takes place with a finite replacement (see
    [throws]). *)
Definition lt_radius (d : R) (radius : JS.number) : bool :=
  match radius with
  | JS.Num r => bool_decide (d < r)%R
  | _ => false
  end.

(** [WHERE distance < :radius]: a [NULL] distance does not pass. *)
Definition where_distance (radius : JS.number) (r : Sound.t * option R)
  : option (Sound.t * R) :=
  match r with
  | (row, Some d) => if lt_radius d radius then Some (row, d) else None
  | (_, None) => None
  end.

(** [ORDER BY distance]: the rows are sorted on the key extended with
    their position in the scan, which is a stable sort of the scan. *)
Fixpoint insert_by_distance (x : Sound.t * R) (l : list (Sound.t * R))
  : list (Sound.t * R) :=
  match l with
  | [] => [x]
  | y :: l' =>
      if bool_decide (snd x <= snd y)%R then x :: y :: l'
      else y :: insert_by_distance x l'
  end.

Fixpoint order_by_distance (l : list (Sound.t * R)) : list (Sound.t * R) :=
  match l with
  | [] => []
  | x :: l' => insert_by_distance x (order_by_distance l')
  end.

(** The rows that pass the [WHERE] clause, in the order of the scan. *)
Definition matching (latitude longitude radius : JS.number)
    (table : list Sound.t) : list (Sound.t * R) :=
  omap (where_distance radius) (select_distance latitude longitude table).

(** The whole statement, with [LIMIT 100]. *)
Definition select (latitude longitude radius : JS.number)
    (table : list Sound.t) : list (Sound.t * R) :=
  take 100 (order_by_distance (matching latitude longitude radius table)).

Definition latitude (q : query) : JS.number :=
  JS.or_else (JS.parseFloat (default "" (lat q))) (JS.Num 0).

Definition longitude (q : query) : JS.number :=
  JS.or_else (JS.parseFloat (default "" (lng q))) (JS.Num 0).

(** The destructuring default is the number [0.25]; [parseFloat] reads
    it through its decimal text. *)
Definition searchRadius (q : query) : JS.number :=
  JS.or_else (JS.parseFloat (default "0.25" (radius q))) (JS.Num (1 / 2)).

(** The replacement [radius: searchRadius / 1000]. *)
Definition radius_replacement (q : query) : JS.number :=
  JS.div_const (searchRadius q) 1000.

(** A replacement is written into the statement as the text of the
    number.  The text of a number that is not finite ([Infinity],
    [-Infinity], [NaN]) is a bare word, which the database reads as the
    name of a column that does not exist: [sequelize.query] throws. *)
Definition throws (q : query) : bool :=
  negb (JS.finite (latitude q) && JS.finite (longitude q)
        && JS.finite (radius_replacement q)).

(** [query_fails]: [sequelize.query] throws for a reason of its own (the
    database cannot be read). *)
Definition handler (query_fails : bool) (q : query) (table : list Sound.t)
  : outcome :=
  if negb (JS.truthy (lat q)) || negb (JS.truthy (lng q)) then
    Sent {| status := 400; json := Error "Missing coordinates" |}
  else if query_fails || throws q then
    Sent {| status := 500; json := Error "Failed to fetch recordings" |}
  else
    Sent {| status := 200;
            json := Recordings (select (latitude q) (longitude q)
                                  (radius_replacement q) table) |}.

End Search.

(** ** Static files: [/uploads] *)

Module Static.

(** [String.prototype.endsWith]. *)
Definition endsWith (s suffix : string) : bool :=
  let n := String.length s in
  let m := String.length suffix in
  if (m <=? n)%nat then String.eqb (substring (n - m) m s) suffix else false.

(** [setHeaders]: the [Content-Type] that it sets for the file at
    [path], if it sets one. *)
Definition setHeaders (path : string) : option string :=
  if endsWith path ".webm" then Some "audio/webm" else None.

End Static.

(** ** Notions used by the statements *)

(** Nearest first. *)
Definition by_distance : relation (Sound.t * R) :=
  fun x y => (snd x <= snd y)%R.

(** The store agrees with itself: the files of the upload directory are
    exactly the files that the rows refer to. *)
Definition consistent (st : store) : Prop :=
  forall name : string,
    name ∈ uploads st
    <-> exists row : Sound.t, row ∈ Sounds st /\ Sound.filename row = name.

(** A request answered as a validation error: status 400 with an error
    message. *)
Definition rejected_as_invalid (o : outcome) : Prop :=
  exists message : string,
    o = Sent {| status := 400; json := Error message |}.

(** The stores that the ingestion route can produce from the empty
    store, whatever the requests and the faults. *)
Inductive reachable : store -> Prop :=
| reachable_empty : reachable {| uploads := ∅; Sounds := [] |}
| reachable_route (st : store) (c : Upload.clock) (ft : Ingest.faults)
    (p : option Upload.part) (b : Ingest.form) :
    reachable st -> reachable (fst (Ingest.route c ft p b st)).

(** The stores produced from the empty store by requests that were all
    answered and whose uploads were all given a name not yet in use. *)
Inductive settled : store -> Prop :=
| settled_empty : settled {| uploads := ∅; Sounds := [] |}
| settled_route (st st' : store) (c : Upload.clock) (ft : Ingest.faults)
    (p : option Upload.part) (b : Ingest.form) (r : response) :
    settled st ->
    (forall p' : Upload.part, p = Some p' ->
       Upload.storage_filename c p' ∉ uploads st) ->
    Ingest.route c ft p b st = (st', Sent r) ->
    settled st'.

(** What the upload configuration lets into the table. *)
Definition admitted_row (row : Sound.t) : Prop :=
  Sound.mimetype row ∈ Upload.allowedTypes
  /\ (Sound.size row <= Upload.fileSize)%N
  /\ Sound.url row = "/uploads/" ++ Sound.filename row.

(** The results of [path.extname]: empty, or a dot and what follows. *)
Definition extension_shape (e : string) : Prop :=
  e = "" \/ exists rest : string, e = String "." rest.

(** A text made of decimal digits only, and a text that does not go on
    with a digit. *)
Fixpoint decimal_text (s : string) : Prop :=
  match s with
  | EmptyString => True
  | String c r => JS.is_digit c = true /\ decimal_text r
  end.

Definition no_leading_digit (s : string) : Prop :=
  match s with
  | EmptyString => True
  | String c _ => JS.is_digit c = false
  end.

(** The file that the upload middleware hands to the handler. *)
Definition stored_file (c : Upload.clock) (p : Upload.part) : Upload.file :=
  {| Upload.filename := Upload.storage_filename c p;
     Upload.file_mimetype := Upload.mimetype p;
     Upload.size := Upload.bytes p |}.

(** Rows and requests of the scenarios below. *)
Module Scenario.

Definition row_at (i : nat) (name : string) (lat lng : R) : Sound.t :=
  {| Sound.id := i;
     Sound.filename := name;
     Sound.url := "/uploads/" ++ name;
     Sound.lat := JS.Num lat;
     Sound.lng := JS.Num lng;
     Sound.mimetype := "audio/webm";
     Sound.size := 2048 |}.

Definition search (lat lng : string) (radius : option string) : Search.query :=
  {| Search.lat := Some lat; Search.lng := Some lng; Search.radius := radius |}.

Definition webm (bytes : N) : Upload.part :=
  {| Upload.fieldname := "audio";
     Upload.extension := ".webm";
     Upload.mimetype := "audio/webm";
     Upload.bytes := bytes |}.

Definition ogg : Upload.part :=
  {| Upload.fieldname := "audio";
     Upload.extension := ".ogg";
     Upload.mimetype := "audio/ogg";
     Upload.bytes := 2048 |}.

Definition at_noon : Upload.clock :=
  {| Upload.now := 1700000000000; Upload.random := 123456789 |}.

Definition a_moment_later : Upload.clock :=
  {| Upload.now := 1700000000001; Upload.random := 42 |}.

Definition coordinates (lat lng : string) : Ingest.form :=
  {| Ingest.lat := Some lat; Ingest.lng := Some lng |}.

Definition no_fault : Ingest.faults :=
  {| Ingest.create_fails := false;
     Ingest.unlink1_fails := false;
     Ingest.unlink2_fails := false |}.

Definition empty_store : store := {| uploads := ∅; Sounds := [] |}.

End Scenario.

(** * Properties *)

(** ** Reading numbers *)

Section ParseFloat.
Local Open Scope R_scope.

Example read_literal_samples :
  JS.read_literal "0.001" = JS.LitDecimal false 1 (-3)
  /\ JS.read_literal "  -12.50e+1xyz" = JS.LitDecimal true 1250 (-1)
  /\ JS.read_literal ".5" = JS.LitDecimal false 5 (-1)
  /\ JS.read_literal "1.e2" = JS.LitDecimal false 1 2
  /\ JS.read_literal "7e" = JS.LitDecimal false 7 0
  /\ JS.read_literal "-Infinity" = JS.LitInfinity true
  /\ JS.read_literal "." = JS.LitNaN
  /\ JS.read_literal "abc" = JS.LitNaN
  /\ JS.read_literal "" = JS.LitNaN.
Proof. repeat split. Qed.

(** Evaluates [parseFloat] on a literal text: the reader runs, the
    decimal is rounded, then the value of the result is simplified. *)
Ltac parse_float :=
  unfold JS.parseFloat;
  match goal with
  | |- context [JS.read_literal ?s] =>
      let l := eval vm_compute in (JS.read_literal s) in
      change (JS.read_literal s) with l
  end;
  cbv [JS.literal_value];
  try match goal with
      | |- context [JS.to_binary64 ?n ?m ?e] =>
          let f := eval vm_compute in (JS.to_binary64 n m e) in
          change (JS.to_binary64 n m e) with f
      end;
  cbv [JS.binary64_value JS.scaled];
  try (f_equal; simpl Z.pow; simpl Z.mul; lra).

Lemma parseFloat_0 : JS.parseFloat "0" = JS.Num 0.
Proof. parse_float. Qed.

Lemma parseFloat_default_radius : JS.parseFloat "0.25" = JS.Num (1 / 4).
Proof. parse_float. Qed.

Lemma parseFloat_half : JS.parseFloat "0.5" = JS.Num (1 / 2).
Proof. parse_float. Qed.

Lemma parseFloat_91 : JS.parseFloat "91" = JS.Num 91.
Proof. parse_float. Qed.

Lemma parseFloat_1 : JS.parseFloat "1" = JS.Num 1.
Proof. parse_float. Qed.

Lemma parseFloat_minus_1 : JS.parseFloat "-1" = JS.Num (-1).
Proof. parse_float. Qed.

Lemma parseFloat_200 : JS.parseFloat "200" = JS.Num 200.
Proof. parse_float. Qed.

Lemma parseFloat_abc : JS.parseFloat "abc" = JS.NaN.
Proof. parse_float. Qed.

Lemma parseFloat_empty : JS.parseFloat "" = JS.NaN.
Proof. parse_float. Qed.

Lemma parseFloat_minus_infinity : JS.parseFloat "-Infinity" = JS.Infinity true.
Proof. parse_float. Qed.

(** A literal beyond the largest binary64 number reads as [Infinity],
    one below the smallest as 0. *)
Lemma parseFloat_overflow : JS.parseFloat "1e400" = JS.Infinity false.
Proof. parse_float. Qed.

Lemma parseFloat_underflow : JS.parseFloat "1e-400" = JS.Num 0.
Proof. parse_float. Qed.

(** A literal that is not a binary fraction is rounded. *)
Lemma parseFloat_tenth :
  JS.parseFloat "0.1" = JS.Num (3602879701896397 / 36028797018963968).
Proof. parse_float. Qed.

(** White space outside the ASCII range is skipped as well: here a
    no-break space, U+00A0. *)
Lemma parseFloat_no_break_space :
  JS.parseFloat (String (ascii_of_nat 194) (String (ascii_of_nat 160) "91"))
  = JS.Num 91.
Proof. parse_float. Qed.

Lemma or_else_falsy (a b : JS.number) : JS.falsy a -> JS.or_else a b = b.
Proof. intros H. unfold JS.or_else. destruct (JS.falsy_dec a); [reflexivity | contradiction]. Qed.

Lemma or_else_truthy (a b : JS.number) : ~ JS.falsy a -> JS.or_else a b = a.
Proof. intros H. unfold JS.or_else. destruct (JS.falsy_dec a); [contradiction | reflexivity]. Qed.

Lemma or_else_num (x : R) (b : JS.number) :
  x <> 0 -> JS.or_else (JS.Num x) b = JS.Num x.
Proof. intros H. apply or_else_truthy. exact H. Qed.

End ParseFloat.

(** ** The distance expression *)

Section Distance.
Local Open Scope R_scope.

Lemma PI_bounds : 3 < PI <= 4.
Proof. pose proof PI2_3_2. pose proof PI_4. lra. Qed.

Lemma radians_0 : Geo.radians 0 = 0.
Proof. unfold Geo.radians. lra. Qed.

Lemma radians_quarter_turn (x : R) :
  Geo.valid_latitude x -> - (PI / 2) <= Geo.radians x <= PI / 2.
Proof.
  unfold Geo.valid_latitude, Geo.radians. intros [Hl Hu].
  pose proof PI_bounds. split; nra.
Qed.

Lemma cos_radians_latitude (x : R) :
  Geo.valid_latitude x -> 0 <= cos (Geo.radians x).
Proof.
  intros H. apply radians_quarter_turn in H. destruct H.
  apply cos_ge_0; assumption.
Qed.

(** The two formulas measure the same angle: the cosine of the central
    angle is [1 - 2 hav]. *)
Lemma cos_angle_hav (lat1 lng1 lat2 lng2 : R) :
  Geo.cos_angle lat1 lng1 lat2 lng2 = 1 - 2 * Geo.hav lat1 lng1 lat2 lng2.
Proof.
  unfold Geo.cos_angle, Geo.hav, Rsqr.
  set (a := Geo.radians lat1). set (b := Geo.radians lat2).
  set (c := Geo.radians lng2 - Geo.radians lng1).
  pose proof (cos_2a_sin ((b - a) / 2)) as H1.
  replace (2 * ((b - a) / 2)) with (b - a) in H1 by lra.
  rewrite cos_minus in H1.
  pose proof (cos_2a_sin (c / 2)) as H2.
  replace (2 * (c / 2)) with c in H2 by lra.
  rewrite H2. nra.
Qed.

(** The argument of [acos] is a cosine: it never leaves [[-1, 1]]. *)
Lemma cos_angle_bound (lat1 lng1 lat2 lng2 : R) :
  -1 <= Geo.cos_angle lat1 lng1 lat2 lng2 <= 1.
Proof.
  unfold Geo.cos_angle.
  set (a := Geo.radians lat1). set (b := Geo.radians lat2).
  set (c := Geo.radians lng2 - Geo.radians lng1).
  pose proof (COS_bound c) as Hc.
  pose proof (COS_bound (a - b)) as Hm. rewrite cos_minus in Hm.
  pose proof (COS_bound (a + b)) as Hp. rewrite cos_plus in Hp.
  destruct (Rle_dec 0 (cos a * cos b)); split; nra.
Qed.

Lemma distance_nonneg (lat1 lng1 lat2 lng2 : R) :
  0 <= Geo.distance lat1 lng1 lat2 lng2.
Proof.
  unfold Geo.distance.
  pose proof (acos_bound (Geo.cos_angle lat1 lng1 lat2 lng2)). nra.
Qed.

Lemma hav_bound (lat1 lng1 lat2 lng2 : R) :
  Geo.valid_latitude lat1 -> Geo.valid_latitude lat2 ->
  0 <= Geo.hav lat1 lng1 lat2 lng2 <= 1.
Proof.
  intros H1 H2. split.
  - unfold Geo.hav.
    pose proof (Rle_0_sqr (sin ((Geo.radians lat2 - Geo.radians lat1) / 2))).
    assert (0 <= cos (Geo.radians lat1) * cos (Geo.radians lat2)
                 * Rsqr (sin ((Geo.radians lng2 - Geo.radians lng1) / 2))).
    { apply Rmult_le_pos; [apply Rmult_le_pos |];
        auto using cos_radians_latitude, Rle_0_sqr. }
    lra.
  - pose proof (cos_angle_bound lat1 lng1 lat2 lng2) as Hb.
    rewrite cos_angle_hav in Hb. lra.
Qed.

Lemma asin_sqrt_range (h : R) :
  0 <= h <= 1 -> 0 <= asin (sqrt h) <= PI / 2 /\ sin (asin (sqrt h)) = sqrt h.
Proof.
  intros [H0 H1].
  assert (Hs : 0 <= sqrt h <= 1).
  { split; [apply sqrt_pos |]. rewrite <- sqrt_1. apply sqrt_le_1_alt. exact H1. }
  assert (Hsin : sin (asin (sqrt h)) = sqrt h) by (apply sin_asin; lra).
  pose proof (asin_bound (sqrt h)) as [Hl Hu].
  repeat split; try assumption.
  destruct (Rle_dec 0 (asin (sqrt h))) as [ | Hneg]; [assumption | exfalso].
  pose proof PI_bounds.
  assert (sin (asin (sqrt h)) < 0) by (apply sin_lt_0_var; lra).
  lra.
Qed.

(** The exact values of the two formulas agree for valid latitudes.
    This is a fact about the expressions over the reals; it says nothing
    of their evaluations in binary64, which differ (near the centre the
    argument of [acos] can round above 1). *)
Lemma distance_is_haversine (lat1 lng1 lat2 lng2 : R) :
  Geo.valid_latitude lat1 -> Geo.valid_latitude lat2 ->
  Geo.distance lat1 lng1 lat2 lng2 = Geo.haversine lat1 lng1 lat2 lng2.
Proof.
  intros H1 H2. unfold Geo.distance, Geo.haversine.
  pose proof (hav_bound lat1 lng1 lat2 lng2 H1 H2) as Hh.
  destruct (asin_sqrt_range _ Hh) as [[Hl Hu] Hsin].
  set (t := asin (sqrt (Geo.hav lat1 lng1 lat2 lng2))) in *.
  assert (Hcos : Geo.cos_angle lat1 lng1 lat2 lng2 = cos (2 * t)).
  { rewrite cos_angle_hav, cos_2a_sin, Hsin.
    rewrite Rmult_assoc, sqrt_sqrt by lra. reflexivity. }
  rewrite Hcos, acos_cos by lra. lra.
Qed.

(** A point one thousandth of a degree east of the centre, on the
    equator, is about 111 m away. *)
Lemma distance_thousandth_degree :
  Geo.distance 0 0 0 (1 / 1000) = 6371 * (PI / 180000).
Proof.
  unfold Geo.distance, Geo.cos_angle. rewrite radians_0.
  rewrite cos_0, sin_0, Rminus_0_r.
  replace (1 * 1 * cos (Geo.radians (1 / 1000)) + 0 * 0)
    with (cos (Geo.radians (1 / 1000))) by lra.
  pose proof PI_bounds.
  rewrite acos_cos by (unfold Geo.radians; lra).
  unfold Geo.radians. lra.
Qed.

Lemma distance_same_point_origin : Geo.distance 0 0 0 0 = 0.
Proof.
  unfold Geo.distance, Geo.cos_angle. rewrite radians_0.
  rewrite Rminus_0_r, cos_0, sin_0.
  replace (1 * 1 * 1 + 0 * 0) with 1 by lra.
  rewrite acos_1. lra.
Qed.

End Distance.

(** ** Filtering, ordering and truncation *)

Section Ranking.
Local Open Scope R_scope.
Implicit Types (x y : Sound.t * R) (l : list (Sound.t * R)).

Lemma insert_by_distance_perm x l : Search.insert_by_distance x l ≡ₚ x :: l.
Proof.
  induction l as [ | y l IH]; simpl; [reflexivity |].
  case_bool_decide; [reflexivity |].
  rewrite IH. apply Permutation_swap.
Qed.

Lemma order_by_distance_perm l : Search.order_by_distance l ≡ₚ l.
Proof.
  induction l as [ | x l IH]; simpl; [reflexivity |].
  rewrite insert_by_distance_perm, IH. reflexivity.
Qed.

Lemma insert_by_distance_sorted x l :
  StronglySorted by_distance l ->
  StronglySorted by_distance (Search.insert_by_distance x l).
Proof.
  induction 1 as [ | y l Hs IH Hy]; simpl.
  - repeat constructor.
  - case_bool_decide as Hxy.
    + constructor; [constructor; assumption |].
      constructor; [exact Hxy |].
      eapply Forall_impl; [exact Hy |]. unfold by_distance. intros z Hz. lra.
    + constructor; [exact IH |].
      rewrite insert_by_distance_perm. constructor; [ | exact Hy].
      unfold by_distance. lra.
Qed.

Lemma order_by_distance_sorted l :
  StronglySorted by_distance (Search.order_by_distance l).
Proof.
  induction l as [ | x l IH]; simpl; [constructor |].
  apply insert_by_distance_sorted, IH.
Qed.

(** Stability: among the rows at one distance the order of the scan is
    kept.  A row is inserted in front of the first row that is not
    nearer, so it only passes rows at other distances. *)
Lemma insert_by_distance_stable (d : R) x l :
  filter (fun y => snd y = d) (Search.insert_by_distance x l)
  = filter (fun y => snd y = d) (x :: l).
Proof.
  induction l as [ | y l IH]; simpl; [reflexivity |].
  case_bool_decide as Hxy; [reflexivity |].
  rewrite !filter_cons in *. rewrite IH.
  repeat case_decide; try reflexivity. lra.
Qed.

Lemma order_by_distance_stable (d : R) l :
  filter (fun y => snd y = d) (Search.order_by_distance l)
  = filter (fun y => snd y = d) l.
Proof.
  induction l as [ | x l IH]; simpl; [reflexivity |].
  rewrite insert_by_distance_stable, !filter_cons, IH. reflexivity.
Qed.

Lemma StronglySorted_take {A} (R : relation A) (n : nat) (l : list A) :
  StronglySorted R l -> StronglySorted R (take n l).
Proof.
  intros H. revert n. induction H as [ | x l Hs IH Hx]; intros [ | n]; simpl;
    try constructor.
  - apply IH.
  - eapply Forall_forall. intros y Hy.
    eapply Forall_forall; [exact Hx |]. eapply subseteq_take, Hy.
Qed.

Lemma StronglySorted_lookup {A} (R : relation A) (l : list A) (i j : nat) (a b : A) :
  StronglySorted R l -> (i < j)%nat -> l !! i = Some a -> l !! j = Some b -> R a b.
Proof.
  intros H. revert i j. induction H as [ | x l Hs IH Hx]; intros i j Hij Hi Hj.
  - discriminate.
  - destruct j as [ | j]; [lia |]. simpl in Hj. destruct i as [ | i].
    + injection Hi as <-. eapply Forall_forall; [exact Hx |].
      eapply list_elem_of_lookup_2, Hj.
    + simpl in Hi. apply (IH i j); [lia | assumption | assumption].
Qed.

Lemma filter_take_prefix {A} (P : A -> Prop) `{!forall a, Decision (P a)}
    (n : nat) (l : list A) :
  filter P (take n l) `prefix_of` filter P l.
Proof.
  rewrite <- (take_drop n l) at 2. rewrite filter_app. apply prefix_app_r.
  reflexivity.
Qed.

(** The rows of the answer are rows of the table that passed the filter. *)
Lemma elem_of_matching (latitude longitude radius : JS.number)
    (table : list Sound.t) (row : Sound.t) (d : R) :
  (row, d) ∈ Search.matching latitude longitude radius table
  <-> row ∈ table
      /\ Search.sql_distance latitude longitude row = Some d
      /\ Search.lt_radius d radius = true.
Proof.
  unfold Search.matching, Search.select_distance.
  rewrite list_elem_of_omap. split.
  - intros [[row' d'] [Hin Hw]]. apply list_elem_of_fmap in Hin.
    destruct Hin as [row'' [Heq Hin]]. injection Heq as -> ->.
    unfold Search.where_distance in Hw.
    destruct (Search.sql_distance latitude longitude row'') as [e | ] eqn:Hd;
      [ | discriminate].
    destruct (Search.lt_radius e radius) eqn:Hlt; [ | discriminate].
    injection Hw as -> ->. auto.
  - intros (Hin & Hd & Hlt).
    exists (row, Search.sql_distance latitude longitude row). split.
    + apply list_elem_of_fmap. exists row. auto.
    + unfold Search.where_distance. rewrite Hd, Hlt. reflexivity.
Qed.

Lemma elem_of_select (latitude longitude radius : JS.number)
    (table : list Sound.t) (r : Sound.t * R) :
  r ∈ Search.select latitude longitude radius table ->
  r ∈ Search.matching latitude longitude radius table.
Proof.
  unfold Search.select. intros H. apply subseteq_take in H.
  rewrite order_by_distance_perm in H. exact H.
Qed.

(** Without the limit nothing that passed the filter is lost. *)
Lemma select_complete (latitude longitude radius : JS.number)
    (table : list Sound.t) (r : Sound.t * R) :
  (length (Search.matching latitude longitude radius table) <= 100)%nat ->
  r ∈ Search.matching latitude longitude radius table ->
  r ∈ Search.select latitude longitude radius table.
Proof.
  unfold Search.select. intros Hlen H.
  rewrite take_ge by (rewrite order_by_distance_perm; exact Hlen).
  rewrite order_by_distance_perm. exact H.
Qed.

Lemma select_length (latitude longitude radius : JS.number) (table : list Sound.t) :
  (length (Search.select latitude longitude radius table) <= 100)%nat.
Proof. unfold Search.select. rewrite length_take. lia. Qed.

End Ranking.

(** ** The search handler *)

Section SearchHandler.
Local Open Scope R_scope.

Lemma handler_missing (fails : bool) (q : Search.query) (table : list Sound.t) :
  JS.truthy (Search.lat q) = false \/ JS.truthy (Search.lng q) = false ->
  Search.handler fails q table
  = Sent {| status := 400; json := Error "Missing coordinates" |}.
Proof.
  intros H. unfold Search.handler.
  destruct H as [-> | ->]; [reflexivity |].
  rewrite orb_true_r. reflexivity.
Qed.

Lemma handler_executes (q : Search.query) (table : list Sound.t) :
  JS.truthy (Search.lat q) = true -> JS.truthy (Search.lng q) = true ->
  Search.throws q = false ->
  Search.handler false q table
  = Sent {| status := 200;
            json := Recordings (Search.select (Search.latitude q) (Search.longitude q)
                                  (Search.radius_replacement q) table) |}.
Proof.
  intros Hlat Hlng Ht. unfold Search.handler. rewrite Hlat, Hlng, Ht. reflexivity.
Qed.

(** A replacement that is not finite: the query throws and the [catch]
    block answers. *)
Lemma handler_throws (fails : bool) (q : Search.query) (table : list Sound.t) :
  JS.truthy (Search.lat q) = true -> JS.truthy (Search.lng q) = true ->
  Search.throws q = true ->
  Search.handler fails q table
  = Sent {| status := 500; json := Error "Failed to fetch recordings" |}.
Proof.
  intros Hlat Hlng Ht. unfold Search.handler. rewrite Hlat, Hlng, Ht.
  rewrite orb_true_r. reflexivity.
Qed.

Lemma throws_finite (q : Search.query) (a b r : R) :
  Search.latitude q = JS.Num a -> Search.longitude q = JS.Num b ->
  Search.searchRadius q = JS.Num r ->
  Search.throws q = false.
Proof.
  intros Ha Hb Hr. unfold Search.throws, Search.radius_replacement.
  rewrite Ha, Hb, Hr. reflexivity.
Qed.

(** The search with a finite centre and a finite radius. *)
Lemma handler_runs (q : Search.query) (table : list Sound.t) (a b r : R) :
  JS.truthy (Search.lat q) = true -> JS.truthy (Search.lng q) = true ->
  Search.latitude q = JS.Num a -> Search.longitude q = JS.Num b ->
  Search.searchRadius q = JS.Num r ->
  Search.handler false q table
  = Sent {| status := 200;
            json := Recordings (Search.select (JS.Num a) (JS.Num b)
                                  (JS.Num (r / 1000)) table) |}.
Proof.
  intros Hlat Hlng Ha Hb Hr.
  rewrite handler_executes by eauto using throws_finite.
  unfold Search.radius_replacement. rewrite Ha, Hb, Hr. reflexivity.
Qed.

Lemma handler_200_inv (fails : bool) (q : Search.query) (table : list Sound.t)
    (rows : list (Sound.t * R)) :
  Search.handler fails q table = Sent {| status := 200; json := Recordings rows |} ->
  rows = Search.select (Search.latitude q) (Search.longitude q)
           (Search.radius_replacement q) table.
Proof.
  unfold Search.handler.
  destruct (negb (JS.truthy (Search.lat q)) || negb (JS.truthy (Search.lng q)));
    [discriminate |].
  destruct (fails || Search.throws q); [discriminate |].
  intros H. injection H as H. symmetry. exact H.
Qed.

(** A row has a distance only when the centre and its own coordinates
    are finite, and the distance is then not negative. *)
Lemma sql_distance_nonneg (latitude longitude : JS.number) (row : Sound.t) (d : R) :
  Search.sql_distance latitude longitude row = Some d -> 0 <= d.
Proof.
  unfold Search.sql_distance.
  destruct latitude, longitude, (Sound.lat row), (Sound.lng row);
    try discriminate.
  intros H. injection H as <-. apply distance_nonneg.
Qed.

Lemma matching_negative (latitude longitude : JS.number) (r : R)
    (table : list Sound.t) :
  r < 0 ->
  Search.matching latitude longitude (JS.Num (r / 1000)) table = [].
Proof.
  intros Hneg. apply elem_of_nil_inv. intros [row d] Hin.
  apply elem_of_matching in Hin. destruct Hin as (_ & Hd & Hlt).
  apply sql_distance_nonneg in Hd. simpl in Hlt.
  apply bool_decide_eq_true_1 in Hlt. lra.
Qed.

(** What the filter really compares with: a thousandth of the radius. *)
Lemma select_within_thousandth (q : Search.query) (table : list Sound.t)
    (r : R) (row : Sound.t) (d : R) :
  Search.searchRadius q = JS.Num r ->
  (row, d) ∈ Search.select (Search.latitude q) (Search.longitude q)
               (Search.radius_replacement q) table ->
  row ∈ table /\ 0 <= d < r / 1000.
Proof.
  intros Hr Hin. apply elem_of_select, elem_of_matching in Hin.
  destruct Hin as (Hrow & Hd & Hlt).
  unfold Search.radius_replacement in Hlt. rewrite Hr in Hlt. simpl in Hlt.
  apply bool_decide_eq_true_1 in Hlt. apply sql_distance_nonneg in Hd. auto.
Qed.

Lemma searchRadius_given (lat lng : option string) (text : string) (x : R) :
  JS.parseFloat text = JS.Num x -> x <> 0 ->
  Search.searchRadius {| Search.lat := lat; Search.lng := lng;
                         Search.radius := Some text |} = JS.Num x.
Proof.
  intros Hp Hx. unfold Search.searchRadius. simpl. rewrite Hp.
  apply or_else_num, Hx.
Qed.

Lemma latitude_zero_text (lng : string) (radius : option string) :
  Search.latitude (Scenario.search "0" lng radius) = JS.Num 0.
Proof.
  unfold Search.latitude. simpl. rewrite parseFloat_0.
  apply or_else_falsy. reflexivity.
Qed.

Lemma longitude_zero_text (lat : string) (radius : option string) :
  Search.longitude (Scenario.search lat "0" radius) = JS.Num 0.
Proof.
  unfold Search.longitude. simpl. rewrite parseFloat_0.
  apply or_else_falsy. reflexivity.
Qed.

Lemma searchRadius_omitted (lat lng : option string) :
  Search.searchRadius
    {| Search.lat := lat; Search.lng := lng; Search.radius := None |}
  = JS.Num (1 / 4).
Proof.
  unfold Search.searchRadius. simpl. rewrite parseFloat_default_radius.
  apply or_else_num. lra.
Qed.

(** C3: when the request gives no radius, the radius that the handler
    computes is the destructuring default 0.25, not 0.5; the filter then
    compares with a thousandth of it. *)
Theorem C3_omitted_radius_is_a_quarter (lat lng : option string) :
  let q := {| Search.lat := lat; Search.lng := lng; Search.radius := None |} in
  Search.searchRadius q = JS.Num (1 / 4)
  /\ Search.searchRadius q <> JS.Num (1 / 2)
  /\ Search.radius_replacement q = JS.Num (1 / 4 / 1000).
Proof.
  pose proof (searchRadius_omitted lat lng) as H.
  simpl. repeat split.
  - exact H.
  - rewrite H. intros Heq. injection Heq as Heq. lra.
  - unfold Search.radius_replacement. rewrite H. reflexivity.
Qed.

End SearchHandler.

(** ** Running the query on given tables *)

Section Evaluation.
Local Open Scope R_scope.

Lemma matching_cons (latitude longitude radius : JS.number) (row : Sound.t)
    (table : list Sound.t) :
  Search.matching latitude longitude radius (row :: table)
  = match Search.where_distance radius
            (row, Search.sql_distance latitude longitude row) with
    | Some x => x :: Search.matching latitude longitude radius table
    | None => Search.matching latitude longitude radius table
    end.
Proof. reflexivity. Qed.

Lemma where_distance_pass (row : Sound.t) (d r : R) :
  d < r -> Search.where_distance (JS.Num r) (row, Some d) = Some (row, d).
Proof.
  intros H. unfold Search.where_distance, Search.lt_radius.
  rewrite bool_decide_eq_true_2 by exact H. reflexivity.
Qed.

Lemma where_distance_fail (row : Sound.t) (d r : R) :
  r <= d -> Search.where_distance (JS.Num r) (row, Some d) = None.
Proof.
  intros H. unfold Search.where_distance, Search.lt_radius.
  rewrite bool_decide_eq_false_2 by lra. reflexivity.
Qed.

Lemma sql_distance_row_at (a b : R) (i : nat) (name : string) (c d : R) :
  Search.sql_distance (JS.Num a) (JS.Num b) (Scenario.row_at i name c d)
  = Some (Geo.distance a b c d).
Proof. reflexivity. Qed.

Lemma select_nil (latitude longitude radius : JS.number) :
  Search.select latitude longitude radius [] = [].
Proof. reflexivity. Qed.

(** Two recordings at the centre itself, with the default radius: both
    are returned, the older one first. *)
Lemma select_two_at_origin (n1 n2 : string) :
  Search.select (JS.Num 0) (JS.Num 0) (JS.Num (1 / 4 / 1000))
    [Scenario.row_at 1 n1 0 0; Scenario.row_at 2 n2 0 0]
  = [(Scenario.row_at 1 n1 0 0, 0); (Scenario.row_at 2 n2 0 0, 0)].
Proof.
  unfold Search.select.
  rewrite !matching_cons, !sql_distance_row_at, distance_same_point_origin.
  rewrite !where_distance_pass by lra.
  change (Search.matching _ _ _ []) with (@nil (Sound.t * R)).
  cbn [Search.order_by_distance Search.insert_by_distance snd].
  rewrite bool_decide_eq_true_2 by lra. reflexivity.
Qed.

Lemma select_one_at_origin (n : string) (r : R) :
  0 < r ->
  Search.select (JS.Num 0) (JS.Num 0) (JS.Num r) [Scenario.row_at 1 n 0 0]
  = [(Scenario.row_at 1 n 0 0, 0)].
Proof.
  intros Hr. unfold Search.select.
  rewrite !matching_cons, !sql_distance_row_at, distance_same_point_origin.
  rewrite !where_distance_pass by lra. reflexivity.
Qed.

(** A recording 111 m away is not within the bound of a search of
    radius 0.5. *)
Lemma select_thousandth_degree (n : string) :
  Search.select (JS.Num 0) (JS.Num 0) (JS.Num (1 / 2 / 1000))
    [Scenario.row_at 1 n 0 (1 / 1000)] = [].
Proof.
  unfold Search.select.
  rewrite !matching_cons, !sql_distance_row_at, distance_thousandth_degree.
  pose proof PI_bounds.
  rewrite where_distance_fail by lra. reflexivity.
Qed.

End Evaluation.

(** ** Claims about the search *)

Section SearchClaims.
Local Open Scope R_scope.

(** C1: a search of radius 0.5 km around (0, 0) over a catalogue that
    holds one recording at (0, 0.001), about 0.111 km away: the distance
    of the recording is below the radius, and the answer is the empty
    list, because the filter compares with [searchRadius / 1000]. *)
Theorem C1_recording_within_radius_is_omitted :
  let row := Scenario.row_at 1 "1700000000000-1.webm" 0 (1 / 1000) in
  let q := Scenario.search "0" "0" (Some "0.5") in
  Search.searchRadius q = JS.Num (1 / 2)
  /\ Search.sql_distance (Search.latitude q) (Search.longitude q) row
     = Some (6371 * (PI / 180000))
  /\ 6371 * (PI / 180000) < 1 / 2
  /\ Search.handler false q [row]
     = Sent {| status := 200; json := Recordings [] |}.
Proof.
  intros row q.
  assert (Hr : Search.searchRadius q = JS.Num (1 / 2)).
  { apply searchRadius_given; [apply parseFloat_half | lra]. }
  pose proof PI_bounds.
  split; [exact Hr |]. split; [ | split; [lra |]].
  - unfold q. rewrite latitude_zero_text, longitude_zero_text.
    unfold row. rewrite sql_distance_row_at, distance_thousandth_degree.
    reflexivity.
  - rewrite (handler_runs q [row] 0 0 (1 / 2) eq_refl eq_refl
               (latitude_zero_text _ _) (longitude_zero_text _ _) Hr).
    unfold row. rewrite select_thousandth_degree. reflexivity.
Qed.

(** C6: the list of a successful answer is sorted by non-decreasing
    distance, the rows at one distance keep the order in which they were
    inserted in the table, and the list has at most 100 items. *)
Theorem C6_sorted_stable_at_most_100 (fails : bool) (q : Search.query)
    (table : list Sound.t) (rows : list (Sound.t * R)) :
  Search.handler fails q table
  = Sent {| status := 200; json := Recordings rows |} ->
  (forall (i j : nat) (a b : Sound.t * R),
      (i < j)%nat -> rows !! i = Some a -> rows !! j = Some b -> snd a <= snd b)
  /\ (forall d : R,
        filter (fun r => snd r = d) rows
        `prefix_of`
        filter (fun r => snd r = d)
          (Search.matching (Search.latitude q) (Search.longitude q)
             (Search.radius_replacement q) table))
  /\ fst <$> Search.matching (Search.latitude q) (Search.longitude q)
               (Search.radius_replacement q) table `sublist_of` table
  /\ (length rows <= 100)%nat.
Proof.
  intros H. apply handler_200_inv in H. subst rows.
  split; [ | split; [ | split]].
  - intros i j a b Hij Hi Hj.
    eapply (StronglySorted_lookup by_distance); [ | exact Hij | exact Hi | exact Hj].
    apply StronglySorted_take, order_by_distance_sorted.
  - intros d. unfold Search.select.
    rewrite <- (order_by_distance_stable d (Search.matching _ _ _ table)).
    apply filter_take_prefix.
  - unfold Search.matching, Search.select_distance.
    generalize (Search.latitude q) (Search.longitude q) (Search.radius_replacement q).
    intros la lo r. induction table as [ | row table IH]; [constructor |].
    cbn [map omap list_omap]. unfold Search.where_distance at 1.
    destruct (Search.sql_distance la lo row) as [d | ];
      [destruct (Search.lt_radius d r) | ];
      cbn [fmap list_fmap fst]; try (apply sublist_cons; exact IH).
    apply sublist_skip. exact IH.
  - apply select_length.
Qed.

Lemma C6_witness :
  let table := [Scenario.row_at 1 "a.webm" 0 0; Scenario.row_at 2 "b.webm" 0 0] in
  let q := Scenario.search "0" "0" None in
  let rows := [(Scenario.row_at 1 "a.webm" 0 0, 0); (Scenario.row_at 2 "b.webm" 0 0, 0)] in
  Search.handler false q table
  = Sent {| status := 200; json := Recordings rows |}
  /\ (forall (i j : nat) (a b : Sound.t * R),
        (i < j)%nat -> rows !! i = Some a -> rows !! j = Some b -> snd a <= snd b)
  /\ (length rows <= 100)%nat.
Proof.
  intros table q rows.
  assert (H : Search.handler false q table
              = Sent {| status := 200; json := Recordings rows |}).
  { rewrite (handler_runs q table 0 0 (1 / 4) eq_refl eq_refl
               (latitude_zero_text _ _) (longitude_zero_text _ _)
               (searchRadius_omitted _ _)).
    unfold table. rewrite select_two_at_origin. reflexivity. }
  split; [exact H |].
  destruct (C6_sorted_stable_at_most_100 false q table rows H) as (Hs & _ & _ & Hl).
  split; [exact Hs | exact Hl].
Defined.

End SearchClaims.

Section SearchValidation.
Local Open Scope R_scope.

Lemma latitude_of_text (q : Search.query) (text : string) :
  Search.lat q = Some text ->
  (JS.falsy (JS.parseFloat text) -> Search.latitude q = JS.Num 0)
  /\ (~ JS.falsy (JS.parseFloat text) -> Search.latitude q = JS.parseFloat text).
Proof.
  intros Ht. unfold Search.latitude. rewrite Ht. simpl.
  split; [apply or_else_falsy | apply or_else_truthy].
Qed.

Lemma longitude_of_text (q : Search.query) (text : string) :
  Search.lng q = Some text ->
  (JS.falsy (JS.parseFloat text) -> Search.longitude q = JS.Num 0)
  /\ (~ JS.falsy (JS.parseFloat text) -> Search.longitude q = JS.parseFloat text).
Proof.
  intros Ht. unfold Search.longitude. rewrite Ht. simpl.
  split; [apply or_else_falsy | apply or_else_truthy].
Qed.

Lemma throws_not_finite (q : Search.query) :
  JS.finite (Search.latitude q) = false
  \/ JS.finite (Search.longitude q) = false
  \/ JS.finite (Search.radius_replacement q) = false ->
  Search.throws q = true.
Proof.
  unfold Search.throws. intros [-> | [-> | ->]];
    rewrite ?andb_false_r; reflexivity.
Qed.

Lemma throws_all_finite (q : Search.query) :
  JS.finite (Search.latitude q) = true ->
  JS.finite (Search.longitude q) = true ->
  JS.finite (Search.radius_replacement q) = true ->
  Search.throws q = false.
Proof. unfold Search.throws. intros -> -> ->. reflexivity. Qed.

Lemma handler_never_400 (fails : bool) (q : Search.query) (table : list Sound.t) :
  JS.truthy (Search.lat q) = true -> JS.truthy (Search.lng q) = true ->
  ~ rejected_as_invalid (Search.handler fails q table).
Proof.
  intros Hlat Hlng [m Hm]. unfold Search.handler in Hm. rewrite Hlat, Hlng in Hm.
  simpl in Hm. destruct (fails || Search.throws q); discriminate.
Qed.

(** C7, as stated, fails: a request whose [lat] is the text [abc] is not
    rejected; the search runs at latitude 0 and answers 200 with the
    recording stored at (0, 0). *)
Lemma C7_counterexample :
  let table := [Scenario.row_at 1 "a.webm" 0 0] in
  let q := Scenario.search "abc" "0" (Some "0.5") in
  JS.parseFloat "abc" = JS.NaN
  /\ Search.handler false q table
     = Sent {| status := 200;
               json := Recordings [(Scenario.row_at 1 "a.webm" 0 0, 0)] |}
  /\ ~ rejected_as_invalid (Search.handler false q table).
Proof.
  intros table q.
  assert (Hlat : Search.latitude q = JS.Num 0).
  { apply (latitude_of_text q "abc" eq_refl). rewrite parseFloat_abc. exact I. }
  assert (Hr : Search.searchRadius q = JS.Num (1 / 2)).
  { apply searchRadius_given; [apply parseFloat_half | lra]. }
  assert (H : Search.handler false q table
              = Sent {| status := 200;
                        json := Recordings [(Scenario.row_at 1 "a.webm" 0 0, 0)] |}).
  { rewrite (handler_runs q table 0 0 (1 / 2) eq_refl eq_refl Hlat
               (longitude_zero_text _ _) Hr).
    unfold table. rewrite select_one_at_origin by lra. reflexivity. }
  split; [apply parseFloat_abc |]. split; [exact H |].
  rewrite H. intros [m Hm]. discriminate Hm.
Qed.

(** C7, amended: a request without [lat] or [lng] (absent or empty) is
    answered 400 [Missing coordinates].  A request that gives both is
    never answered 400 for their value: a component that does not read
    as a number (or reads as zero) is replaced by 0 and any other value
    is used as it is, in range or not.  When the centre and the radius
    bound are finite and the database can be read, the search runs and
    answers 200, with the empty list for an empty catalogue or when no
    row passes; when a component of the centre reads as an infinite
    number, the query throws and the answer is 500
    [Failed to fetch recordings]. *)
Theorem C7_center_is_coerced_not_validated (fails : bool) (q : Search.query)
    (table : list Sound.t) :
  (JS.truthy (Search.lat q) = false \/ JS.truthy (Search.lng q) = false ->
   Search.handler fails q table
   = Sent {| status := 400; json := Error "Missing coordinates" |})
  /\ (forall text : string,
        Search.lat q = Some text ->
        (JS.falsy (JS.parseFloat text) -> Search.latitude q = JS.Num 0)
        /\ (~ JS.falsy (JS.parseFloat text) ->
            Search.latitude q = JS.parseFloat text))
  /\ (forall text : string,
        Search.lng q = Some text ->
        (JS.falsy (JS.parseFloat text) -> Search.longitude q = JS.Num 0)
        /\ (~ JS.falsy (JS.parseFloat text) ->
            Search.longitude q = JS.parseFloat text))
  /\ (JS.truthy (Search.lat q) = true -> JS.truthy (Search.lng q) = true ->
      ~ rejected_as_invalid (Search.handler fails q table)
      /\ (JS.finite (Search.latitude q) = true ->
          JS.finite (Search.longitude q) = true ->
          JS.finite (Search.radius_replacement q) = true ->
          Search.handler false q table
          = Sent {| status := 200;
                    json := Recordings
                              (Search.select (Search.latitude q) (Search.longitude q)
                                 (Search.radius_replacement q) table) |}
          /\ Search.handler false q []
             = Sent {| status := 200; json := Recordings [] |}
          /\ (Search.matching (Search.latitude q) (Search.longitude q)
                (Search.radius_replacement q) table = [] ->
              Search.handler false q table
              = Sent {| status := 200; json := Recordings [] |}))
      /\ (JS.finite (Search.latitude q) = false
          \/ JS.finite (Search.longitude q) = false ->
          Search.handler fails q table
          = Sent {| status := 500; json := Error "Failed to fetch recordings" |})).
Proof.
  split; [apply handler_missing |].
  split; [apply latitude_of_text |]. split; [apply longitude_of_text |].
  intros Hlat Hlng. split; [apply handler_never_400; assumption |]. split.
  - intros Ha Hb Hr. pose proof (throws_all_finite q Ha Hb Hr) as Ht.
    split; [apply handler_executes; assumption |].
    split; [rewrite handler_executes by assumption; reflexivity |].
    intros Hm. rewrite handler_executes by assumption.
    unfold Search.select. rewrite Hm. reflexivity.
  - intros Hinf. apply handler_throws; [assumption | assumption |].
    apply throws_not_finite. tauto.
Qed.

Lemma C7_witness :
  let q := Scenario.search "abc" "91" None in
  JS.truthy (Search.lat q) = true /\ JS.truthy (Search.lng q) = true
  /\ Search.latitude q = JS.Num 0
  /\ Search.longitude q = JS.Num 91
  /\ Search.handler false q [] = Sent {| status := 200; json := Recordings [] |}.
Proof.
  intros q.
  destruct (C7_center_is_coerced_not_validated false q []) as (_ & Hlat & Hlng & Hrun).
  destruct (Hlat "abc" eq_refl) as [Hzero _].
  destruct (Hlng "91" eq_refl) as [_ Hkept].
  assert (Ha : Search.latitude q = JS.Num 0).
  { apply Hzero. rewrite parseFloat_abc. exact I. }
  assert (Hb : Search.longitude q = JS.Num 91).
  { rewrite Hkept; rewrite parseFloat_91; [reflexivity |]. simpl. lra. }
  destruct (Hrun eq_refl eq_refl) as (_ & Hfinite & _).
  assert (Hr : JS.finite (Search.radius_replacement q) = true).
  { unfold Search.radius_replacement, q, Scenario.search.
    rewrite searchRadius_omitted. reflexivity. }
  destruct (Hfinite ltac:(rewrite Ha; reflexivity) ltac:(rewrite Hb; reflexivity) Hr)
    as (_ & Hempty & _).
  exact (conj eq_refl (conj eq_refl (conj Ha (conj Hb Hempty)))).
Defined.

(** C10, as stated, fails: the radius [-Infinity] is a negative radius
    and it is kept as it is, but the query then throws and the answer
    is 500, not the empty list with status 200. *)
Lemma C10_counterexample :
  let q := Scenario.search "0" "0" (Some "-Infinity") in
  let table := [Scenario.row_at 1 "a.webm" 0 0] in
  JS.negative (JS.parseFloat "-Infinity")
  /\ Search.searchRadius q = JS.parseFloat "-Infinity"
  /\ Search.handler false q table
     = Sent {| status := 500; json := Error "Failed to fetch recordings" |}
  /\ Search.handler false q table
     <> Sent {| status := 200; json := Recordings [] |}.
Proof.
  intros q table.
  assert (Hr : Search.searchRadius q = JS.Infinity true).
  { unfold Search.searchRadius, q, Scenario.search. simpl.
    rewrite parseFloat_minus_infinity. apply or_else_truthy. intros []. }
  assert (H : Search.handler false q table
              = Sent {| status := 500; json := Error "Failed to fetch recordings" |}).
  { apply handler_throws; [reflexivity | reflexivity |].
    apply throws_not_finite. right. right.
    unfold Search.radius_replacement. rewrite Hr. reflexivity. }
  rewrite parseFloat_minus_infinity.
  split; [reflexivity |]. split; [exact Hr |]. split; [exact H |].
  rewrite H. discriminate.
Qed.

(** C10, amended: with [lat] and [lng] given and reading as finite
    numbers, no finite value of [radius] makes the handler answer an
    error.  A radius that is not a number or that reads as 0 is replaced
    by 0.5; any other finite radius is kept as it is, and for a negative
    one the answer is the empty list with status 200.  A radius that
    reads as an infinite number is kept as well, the query then throws
    and the answer is 500 [Failed to fetch recordings]. *)
Theorem C10_finite_radius_is_never_rejected (q : Search.query)
    (table : list Sound.t) :
  JS.truthy (Search.lat q) = true -> JS.truthy (Search.lng q) = true ->
  JS.finite (Search.latitude q) = true -> JS.finite (Search.longitude q) = true ->
  let given := JS.parseFloat (default "0.25" (Search.radius q)) in
  (JS.falsy given ->
   Search.searchRadius q = JS.Num (1 / 2)
   /\ exists rows : list (Sound.t * R),
       Search.handler false q table
       = Sent {| status := 200; json := Recordings rows |})
  /\ (forall r : R,
        given = JS.Num r -> r <> 0 ->
        Search.searchRadius q = JS.Num r
        /\ exists rows : list (Sound.t * R),
            Search.handler false q table
            = Sent {| status := 200; json := Recordings rows |})
  /\ (forall r : R,
        given = JS.Num r -> r < 0 ->
        Search.handler false q table
        = Sent {| status := 200; json := Recordings [] |})
  /\ (forall (negative fails : bool),
        given = JS.Infinity negative ->
        Search.searchRadius q = JS.Infinity negative
        /\ Search.handler fails q table
           = Sent {| status := 500; json := Error "Failed to fetch recordings" |}).
Proof.
  intros Hlat Hlng Ha Hb given.
  assert (Hrun : forall r : R,
             Search.searchRadius q = JS.Num r ->
             Search.handler false q table
             = Sent {| status := 200;
                       json := Recordings
                                 (Search.select (Search.latitude q) (Search.longitude q)
                                    (JS.Num (r / 1000)) table) |}).
  { intros r Hr. rewrite handler_executes; try assumption.
    - unfold Search.radius_replacement. rewrite Hr. reflexivity.
    - apply throws_all_finite; try assumption.
      unfold Search.radius_replacement. rewrite Hr. reflexivity. }
  assert (Hkept : forall r : R,
             given = JS.Num r -> r <> 0 -> Search.searchRadius q = JS.Num r).
  { intros r Hg Hr. unfold Search.searchRadius. fold given. rewrite Hg.
    apply or_else_num, Hr. }
  split; [ | split; [ | split]].
  - intros Hf.
    assert (Hr : Search.searchRadius q = JS.Num (1 / 2))
      by (unfold Search.searchRadius; apply or_else_falsy; exact Hf).
    split; [exact Hr |]. eexists. apply Hrun, Hr.
  - intros r Hg Hr. split; [apply Hkept; assumption |].
    eexists. apply (Hrun r). apply Hkept; assumption.
  - intros r Hg Hr. rewrite (Hrun r) by (apply Hkept; [assumption | lra]).
    unfold Search.select. rewrite matching_negative by exact Hr. reflexivity.
  - intros negative fails Hg.
    assert (Hr : Search.searchRadius q = JS.Infinity negative).
    { unfold Search.searchRadius. fold given. rewrite Hg.
      apply or_else_truthy. intros []. }
    split; [exact Hr |].
    apply handler_throws; [assumption | assumption |].
    apply throws_not_finite. right. right.
    unfold Search.radius_replacement. rewrite Hr. reflexivity.
Qed.

Lemma C10_witness :
  let q := Scenario.search "0" "0" (Some "-1") in
  let table := [Scenario.row_at 1 "a.webm" 0 0] in
  JS.truthy (Search.lat q) = true /\ JS.truthy (Search.lng q) = true
  /\ JS.finite (Search.latitude q) = true
  /\ JS.finite (Search.longitude q) = true
  /\ Search.searchRadius q = JS.Num (-1)
  /\ Search.handler false q table
     = Sent {| status := 200; json := Recordings [] |}.
Proof.
  intros q table.
  assert (Ha : JS.finite (Search.latitude q) = true)
    by (unfold q; rewrite latitude_zero_text; reflexivity).
  assert (Hb : JS.finite (Search.longitude q) = true)
    by (unfold q; rewrite longitude_zero_text; reflexivity).
  destruct (C10_finite_radius_is_never_rejected q table eq_refl eq_refl Ha Hb)
    as (_ & Hkept & Hneg & _).
  change (default "0.25" (Search.radius q)) with "-1" in Hkept, Hneg.
  destruct (Hkept (-1) parseFloat_minus_1 ltac:(lra)) as [Hr _].
  exact (conj eq_refl (conj eq_refl (conj Ha (conj Hb
           (conj Hr (Hneg (-1) parseFloat_minus_1 ltac:(lra))))))).
Defined.

End SearchValidation.

(** ** Claims about ingestion *)

Section IngestClaims.

Lemma store_eta (st : store) :
  {| uploads := uploads st; Sounds := Sounds st |} = st.
Proof. destruct st. reflexivity. Qed.

Lemma consistent_created (name : string) (row : Sound.t) (st : store) :
  Sound.filename row = name -> consistent st ->
  consistent {| uploads := {[ name ]} ∪ uploads st; Sounds := Sounds st ++ [row] |}.
Proof.
  intros Hname Hc n. simpl. rewrite elem_of_union, elem_of_singleton, (Hc n).
  split.
  - intros [-> | (r & Hr & Hn)].
    + exists row. split; [apply elem_of_app; right; apply list_elem_of_singleton; reflexivity |].
      exact Hname.
    + exists r. split; [apply elem_of_app; left; exact Hr | exact Hn].
  - intros (r & Hr & Hn). apply elem_of_app in Hr. destruct Hr as [Hr | Hr].
    + right. exists r. auto.
    + apply list_elem_of_singleton in Hr. subst r. left. congruence.
Qed.

(** Writing a fresh file and removing it again restores the directory. *)
Lemma unlink_fresh (name : string) (dir : gset string) :
  name ∉ dir -> ({[ name ]} ∪ dir) ∖ {[ name ]} = dir.
Proof. set_solver. Qed.

Lemma remove_absent (name : string) (dir : gset string) :
  name ∉ dir -> dir ∖ {[ name ]} = dir.
Proof. set_solver. Qed.

(** What the handler does once a file was stored, case by case. *)
Lemma handler_sent (ft : Ingest.faults) (f : Upload.file) (b : Ingest.form)
    (st st' : store) (r : response) :
  Ingest.handler ft (Some f) b st = (st', Sent r) ->
  (status r = 201
   /\ st' = {| uploads := uploads st;
              Sounds := Sounds st ++ [Ingest.new_row f (default "" (Ingest.lat b))
                                        (default "" (Ingest.lng b)) (Sounds st)] |})
  \/ (status r <> 201
      /\ st' = {| uploads := uploads st ∖ {[ Upload.filename f ]};
                 Sounds := Sounds st |}).
Proof.
  unfold Ingest.handler, Ingest.catch_block, Ingest.unlink.
  destruct (negb (JS.truthy (Ingest.lat b)) || negb (JS.truthy (Ingest.lng b))).
  - destruct (Ingest.unlink1_fails ft).
    + destruct (Ingest.unlink2_fails ft); intros H; [discriminate |].
      injection H as <- <-. right. split; [simpl; lia | reflexivity].
    + intros H. injection H as <- <-. right. split; [simpl; lia | reflexivity].
  - destruct (Ingest.create_fails ft).
    + destruct (Ingest.unlink1_fails ft); intros H; [discriminate |].
      injection H as <- <-. right. split; [simpl; lia | reflexivity].
    + intros H. injection H as <- <-. left. split; reflexivity.
Qed.

(** C2, amended: when the store is consistent, the name given to the
    upload is not yet in the directory and the request is answered by
    the route, the store is consistent afterwards; an answer other than
    201 leaves the store as it was (the blob written for the request has
    been deleted before the answer), and 201 adds one row and its
    blob. *)
Theorem C2_ingestion_keeps_store_consistent (c : Upload.clock)
    (ft : Ingest.faults) (p : option Upload.part) (b : Ingest.form)
    (st st' : store) (r : response) :
  consistent st ->
  (forall p' : Upload.part, p = Some p' ->
     Upload.storage_filename c p' ∉ uploads st) ->
  Ingest.route c ft p b st = (st', Sent r) ->
  consistent st'
  /\ (status r <> 201 -> st' = st)
  /\ (status r = 201 ->
      exists (p' : Upload.part) (row : Sound.t),
        p = Some p'
        /\ Sound.filename row = Upload.storage_filename c p'
        /\ Sounds st' = (Sounds st ++ [row])%list
        /\ uploads st' = {[ Upload.storage_filename c p' ]} ∪ uploads st).
Proof.
  intros Hc Hfresh. unfold Ingest.route, Upload.single.
  destruct p as [p' | ].
  - specialize (Hfresh p' eq_refl). set (name := Upload.storage_filename c p') in *.
    destruct (negb (String.eqb (Upload.fieldname p') "audio"));
      [ | destruct (negb (Upload.fileFilter p'));
          [ | destruct (N.ltb Upload.fileSize (Upload.bytes p'))]].
    + intros H. injection H as <- <-. rewrite store_eta.
      split; [exact Hc |]. split; [reflexivity | simpl; discriminate].
    + intros H. injection H as <- <-. rewrite store_eta.
      split; [exact Hc |]. split; [reflexivity | simpl; discriminate].
    + intros H. injection H as <- <-. rewrite remove_absent, store_eta by exact Hfresh.
      split; [exact Hc |]. split; [reflexivity | simpl; discriminate].
    + intros H. apply handler_sent in H. simpl in H.
      destruct H as [[Hs ->] | [Hs ->]].
      * split; [apply consistent_created; [reflexivity | exact Hc] |].
        split; [intros Hn; contradiction |].
        intros _. eexists p', _. repeat split; reflexivity.
      * rewrite unlink_fresh, store_eta by exact Hfresh.
        split; [exact Hc |]. split; [reflexivity | intros Hn; contradiction].
  - simpl. intros H. injection H as <- <-. rewrite store_eta.
    split; [exact Hc |]. split; [reflexivity | simpl; discriminate].
Qed.

Lemma consistent_empty : consistent Scenario.empty_store.
Proof.
  intros name. simpl. split.
  - intros H. apply elem_of_empty in H. contradiction.
  - intros (row & Hrow & _). apply elem_of_nil in Hrow. contradiction.
Qed.

Lemma consistent_one_row (name : string) (row : Sound.t) :
  Sound.filename row = name ->
  consistent {| uploads := {[ name ]}; Sounds := [row] |}.
Proof.
  intros Hname n. simpl. rewrite elem_of_singleton. split.
  - intros ->. exists row. split; [apply list_elem_of_singleton; reflexivity | exact Hname].
  - intros (r & Hr & Hn). apply list_elem_of_singleton in Hr. subst r. congruence.
Qed.

Lemma C2_witness :
  let c := Scenario.at_noon in
  let ft := {| Ingest.create_fails := true;
               Ingest.unlink1_fails := false;
               Ingest.unlink2_fails := false |} in
  let p := Scenario.webm 2048 in
  let b := Scenario.coordinates "1" "1" in
  let st' := {| uploads := ({[ Upload.storage_filename c p ]} ∪ ∅)
                           ∖ {[ Upload.storage_filename c p ]};
                Sounds := [] |} in
  let r := {| status := 500; json := Error "Failed to save recording" |} in
  consistent Scenario.empty_store
  /\ Ingest.route c ft (Some p) b Scenario.empty_store = (st', Sent r)
  /\ consistent st' /\ st' = Scenario.empty_store.
Proof.
  intros c ft p b st' r.
  assert (Hfresh : forall p' : Upload.part, Some p = Some p' ->
            Upload.storage_filename c p' ∉ uploads Scenario.empty_store).
  { intros p' _. simpl. apply not_elem_of_empty. }
  assert (Hrun : Ingest.route c ft (Some p) b Scenario.empty_store = (st', Sent r))
    by reflexivity.
  destruct (C2_ingestion_keeps_store_consistent c ft (Some p) b
              Scenario.empty_store st' r consistent_empty Hfresh Hrun)
    as (Hc & Hsame & _).
  refine (conj consistent_empty (conj Hrun (conj Hc (Hsame _)))).
  simpl. lia.
Defined.

(** C2, as stated, fails in two ways.  When the metadata write fails
    and the compensating delete fails too, the blob stays without a row,
    and it is still there after a later request was answered 201.  When
    the generated name is already the file of a row and the metadata
    write fails, the request is answered 500 after the delete, and the
    older row is left without its blob. *)
Lemma C2_counterexample :
  let p := Scenario.webm 2048 in
  let b := Scenario.coordinates "1" "1" in
  let n1 := Upload.storage_filename Scenario.at_noon p in
  let n2 := Upload.storage_filename Scenario.a_moment_later p in
  let no_cleanup := {| Ingest.create_fails := true;
                       Ingest.unlink1_fails := true;
                       Ingest.unlink2_fails := false |} in
  let no_create := {| Ingest.create_fails := true;
                      Ingest.unlink1_fails := false;
                      Ingest.unlink2_fails := false |} in
  let st1 := {| uploads := {[ n1 ]} ∪ ∅; Sounds := [] |} in
  let row2 := Ingest.new_row (stored_file Scenario.a_moment_later p) "1" "1" [] in
  let st2 := {| uploads := {[ n2 ]} ∪ ({[ n1 ]} ∪ ∅); Sounds := [row2] |} in
  let held := {| uploads := {[ n1 ]}; Sounds := [Scenario.row_at 1 n1 0 0] |} in
  let lost := {| uploads := ({[ n1 ]} ∪ {[ n1 ]}) ∖ {[ n1 ]};
                 Sounds := [Scenario.row_at 1 n1 0 0] |} in
  (consistent Scenario.empty_store
   /\ Ingest.route Scenario.at_noon no_cleanup (Some p) b Scenario.empty_store
      = (st1, Rejected)
   /\ Ingest.route Scenario.a_moment_later Scenario.no_fault (Some p) b st1
      = (st2, Sent {| status := 201; json := Recording row2 |})
   /\ ~ consistent st2)
  /\ (consistent held
      /\ Ingest.route Scenario.at_noon no_create (Some p) b held
         = (lost, Sent {| status := 500; json := Error "Failed to save recording" |})
      /\ ~ consistent lost).
Proof.
  intros p b n1 n2 no_cleanup no_create st1 row2 st2 held lost. split.
  - split; [apply consistent_empty |]. split; [reflexivity |].
    split; [reflexivity |].
    intros Hc. destruct (Hc n1) as [H _].
    destruct H as (row & Hrow & Hname).
    { cbn [uploads st2]. apply elem_of_union_r, elem_of_union_l, elem_of_singleton_2.
      reflexivity. }
    cbn [Sounds st2] in Hrow. apply list_elem_of_singleton in Hrow. subst row.
    cbn [Sound.filename row2 Ingest.new_row stored_file Upload.filename] in Hname.
    vm_compute in Hname. discriminate Hname.
  - split; [apply consistent_one_row; reflexivity |]. split; [reflexivity |].
    intros Hc. destruct (Hc n1) as [_ H].
    assert (Hin : n1 ∈ uploads lost).
    { apply H. exists (Scenario.row_at 1 n1 0 0).
      split; [apply list_elem_of_singleton |]; reflexivity. }
    cbn [uploads lost] in Hin. apply elem_of_difference in Hin.
    destruct Hin as [_ Hin]. apply Hin, elem_of_singleton_2. reflexivity.
Qed.

(** C4, as stated, fails: a request with [lat] 91 is answered 201, its
    row is written with latitude 91 and its blob stays. *)
Lemma C4_counterexample :
  let c := Scenario.at_noon in
  let p := Scenario.webm 2048 in
  let name := Upload.storage_filename c p in
  let row := {| Sound.id := 1; Sound.filename := name;
                Sound.url := "/uploads/" ++ name;
                Sound.lat := JS.Num 91; Sound.lng := JS.Num 0;
                Sound.mimetype := "audio/webm"; Sound.size := 2048 |} in
  let st' := {| uploads := {[ name ]} ∪ ∅; Sounds := [row] |} in
  Ingest.route c Scenario.no_fault (Some p) (Scenario.coordinates "91" "0")
    Scenario.empty_store
  = (st', Sent {| status := 201; json := Recording row |})
  /\ ~ Geo.valid_latitude 91
  /\ row ∈ Sounds st' /\ name ∈ uploads st'.
Proof.
  intros c p name row st'. split; [ | split; [ | split]].
  - unfold Ingest.route.
    change (Upload.single c (Some p) (uploads Scenario.empty_store))
      with ({[ name ]} ∪ (∅ : gset string),
            Upload.Stored {| Upload.filename := name;
                             Upload.file_mimetype := "audio/webm";
                             Upload.size := 2048 |}).
    cbv beta iota. unfold Ingest.handler.
    change (negb (JS.truthy (Ingest.lat (Scenario.coordinates "91" "0")))
            || negb (JS.truthy (Ingest.lng (Scenario.coordinates "91" "0"))))
      with false.
    cbv beta iota. cbn [Ingest.create_fails Scenario.no_fault].
    unfold Ingest.new_row.
    cbn [Sounds uploads Upload.filename Upload.file_mimetype Upload.size length
         Scenario.coordinates Ingest.lat Ingest.lng app].
    change (default "" (Some "91")) with "91".
    change (default "" (Some "0")) with "0".
    rewrite parseFloat_91, parseFloat_0. reflexivity.
  - unfold Geo.valid_latitude. lra.
  - simpl. apply list_elem_of_singleton. reflexivity.
  - simpl. apply elem_of_union_l, elem_of_singleton. reflexivity.
Qed.

(** C4, amended: the coordinates of a create request are not checked
    against any range.  When the upload is accepted, both coordinates
    are given and the database write succeeds, the row is written with
    the latitude and the longitude as [parseFloat] reads them, the blob
    stays in the directory and the answer is 201. *)
Theorem C4_coordinates_are_stored_unchecked (c : Upload.clock)
    (ft : Ingest.faults) (p : Upload.part) (b : Ingest.form) (st : store) :
  Upload.fieldname p = "audio" ->
  Upload.fileFilter p = true ->
  (Upload.bytes p <= Upload.fileSize)%N ->
  JS.truthy (Ingest.lat b) = true -> JS.truthy (Ingest.lng b) = true ->
  Ingest.create_fails ft = false ->
  exists row : Sound.t,
    Ingest.route c ft (Some p) b st
    = ({| uploads := {[ Upload.storage_filename c p ]} ∪ uploads st;
          Sounds := Sounds st ++ [row] |},
       Sent {| status := 201; json := Recording row |})
    /\ Sound.lat row = JS.parseFloat (default "" (Ingest.lat b))
    /\ Sound.lng row = JS.parseFloat (default "" (Ingest.lng b))
    /\ Sound.filename row = Upload.storage_filename c p.
Proof.
  intros Hfield Hfilter Hsize Hlat Hlng Hcreate.
  eexists. split.
  - unfold Ingest.route, Upload.single.
    rewrite Hfield, Hfilter. cbn [String.eqb Ascii.eqb Bool.eqb negb].
    apply N.ltb_ge in Hsize. rewrite Hsize.
    unfold Ingest.handler. cbn [uploads Sounds].
    rewrite Hlat, Hlng, Hcreate. reflexivity.
  - repeat split; reflexivity.
Qed.

Lemma C4_witness :
  let p := Scenario.webm 2048 in
  let b := Scenario.coordinates "91" "0" in
  exists row : Sound.t,
    Ingest.route Scenario.at_noon Scenario.no_fault (Some p) b Scenario.empty_store
    = ({| uploads := {[ Upload.storage_filename Scenario.at_noon p ]} ∪ ∅;
          Sounds := [row] |},
       Sent {| status := 201; json := Recording row |})
    /\ Sound.lat row = JS.parseFloat "91".
Proof.
  intros p b.
  destruct (C4_coordinates_are_stored_unchecked Scenario.at_noon Scenario.no_fault
              p b Scenario.empty_store eq_refl eq_refl) as (row & Hrun & Hlat & _);
    [discriminate | reflexivity | reflexivity | reflexivity |].
  exists row. split; [exact Hrun | exact Hlat].
Defined.

(** C8, as stated, fails: the upload of an [audio/ogg] file is turned
    down before anything is stored, and so is an [audio/webm] file of
    10 MiB and one byte, but the answer is the one of the error-handling
    middleware, status 500, not 400 or 413. *)
Lemma C8_counterexample :
  let post := fun p : Upload.part =>
    Ingest.route Scenario.at_noon Scenario.no_fault (Some p)
      (Scenario.coordinates "1" "1") Scenario.empty_store in
  let large := Scenario.webm (10 * 1024 * 1024 + 1) in
  Upload.fileFilter Scenario.ogg = false
  /\ post Scenario.ogg
     = (Scenario.empty_store,
        Sent {| status := 500; json := Error "Something went wrong!" |})
  /\ (Upload.fileSize < Upload.bytes large)%N
  /\ snd (post large)
     = Sent {| status := 500; json := Error "Something went wrong!" |}
  /\ ~ (exists r : response,
          snd (post Scenario.ogg) = Sent r /\ (status r = 400 \/ status r = 413))
  /\ ~ (exists r : response,
          snd (post large) = Sent r /\ (status r = 400 \/ status r = 413)).
Proof.
  intros post large.
  split; [reflexivity |]. split; [reflexivity |].
  split; [reflexivity |]. split; [reflexivity |].
  split; intros (r & Hr & Hs); simpl in Hr; injection Hr as <-;
    simpl in Hs; destruct Hs; discriminate.
Qed.

(** C8, amended: an upload whose declared type is not one of
    [audio/mpeg], [audio/wav], [audio/webm] is turned down by the filter
    before the storage engine is given the file, and the store is left
    untouched; an upload of an allowed type that is larger than 10 MiB
    is turned down too, no row is written and no file of the request
    remains in the directory.  In both cases the handler does not run
    and the answer is the one of the error-handling middleware: status
    500, [Something went wrong!]. *)
Theorem C8_rejected_uploads_answer_500 (c : Upload.clock) (ft : Ingest.faults)
    (p : Upload.part) (b : Ingest.form) (st : store) :
  Upload.fileFilter p = false \/ (Upload.fileSize < Upload.bytes p)%N ->
  exists st' : store,
    Ingest.route c ft (Some p) b st
    = (st', Sent {| status := 500; json := Error "Something went wrong!" |})
    /\ Sounds st' = Sounds st
    /\ uploads st' ⊆ uploads st
    /\ (Upload.fileFilter p = false -> st' = st)
    /\ (Upload.fieldname p = "audio" -> Upload.fileFilter p = true ->
        uploads st' = uploads st ∖ {[ Upload.storage_filename c p ]}).
Proof.
  intros H. unfold Ingest.route, Upload.single.
  destruct (negb (String.eqb (Upload.fieldname p) "audio")) eqn:Hfield.
  - exists st. rewrite store_eta. split; [reflexivity |].
    split; [reflexivity |]. split; [reflexivity |]. split; [reflexivity |].
    intros Hf. rewrite Hf in Hfield. discriminate.
  - destruct (Upload.fileFilter p) eqn:Hfilter; simpl.
    + destruct H as [H | H]; [discriminate |].
      apply N.ltb_lt in H. rewrite H.
      eexists. split; [reflexivity |]. simpl.
      split; [reflexivity |]. split; [apply subseteq_difference_l; reflexivity |].
      split; [discriminate | reflexivity].
    + exists st. rewrite store_eta. split; [reflexivity |].
      split; [reflexivity |]. split; [reflexivity |]. split; [reflexivity |].
      discriminate.
Qed.

Lemma C8_witness :
  (Upload.fileFilter Scenario.ogg = false
   \/ (Upload.fileSize < Upload.bytes Scenario.ogg)%N)
  /\ exists st' : store,
       Ingest.route Scenario.at_noon Scenario.no_fault (Some Scenario.ogg)
         (Scenario.coordinates "1" "1") Scenario.empty_store
       = (st', Sent {| status := 500; json := Error "Something went wrong!" |})
       /\ st' = Scenario.empty_store.
Proof.
  assert (H : Upload.fileFilter Scenario.ogg = false
              \/ (Upload.fileSize < Upload.bytes Scenario.ogg)%N)
    by (left; reflexivity).
  split; [exact H |].
  destruct (C8_rejected_uploads_answer_500 Scenario.at_noon Scenario.no_fault
              Scenario.ogg (Scenario.coordinates "1" "1") Scenario.empty_store H)
    as (st' & Hrun & _ & _ & Hsame & _).
  exists st'. split; [exact Hrun | apply Hsame; reflexivity].
Defined.

(** C9: the metadata write fails and the compensating [fs.unlink] fails
    too.  The exception leaves the [catch] block before
    [res.status(500)] is reached: the promise of the handler rejects,
    the blob stays, and the answer [Failed to save recording] is never
    sent; the only other answer the application can give, the one of
    the error-handling middleware, is a different one. *)
Theorem C9_failed_cleanup_escapes_the_handler (f : Upload.file) (st : store) :
  let ft := {| Ingest.create_fails := true;
               Ingest.unlink1_fails := true;
               Ingest.unlink2_fails := false |} in
  Ingest.handler ft (Some f) (Scenario.coordinates "1" "1") st = (st, Rejected)
  /\ Ingest.handler ft (Some f) (Scenario.coordinates "1" "1") st
     <> (st, Sent {| status := 500; json := Error "Failed to save recording" |})
  /\ error_middleware
     <> {| status := 500; json := Error "Failed to save recording" |}.
Proof.
  intros ft.
  assert (H : Ingest.handler ft (Some f) (Scenario.coordinates "1" "1") st
              = (st, Rejected)).
  { unfold Ingest.handler. simpl. rewrite store_eta. reflexivity. }
  split; [exact H |]. split; [rewrite H |]; discriminate.
Qed.

End IngestClaims.

(** * Further properties *)

(** ** The distance expression *)

Section DistanceFacts.
Local Open Scope R_scope.

Lemma cos_angle_sym (lat1 lng1 lat2 lng2 : R) :
  Geo.cos_angle lat1 lng1 lat2 lng2 = Geo.cos_angle lat2 lng2 lat1 lng1.
Proof.
  unfold Geo.cos_angle.
  replace (Geo.radians lng2 - Geo.radians lng1)
    with (- (Geo.radians lng1 - Geo.radians lng2)) by lra.
  rewrite cos_neg. ring.
Qed.

(** X1: the distance does not depend on which of the two points is the
    centre: swapping the centre and the row gives the same value. *)
Theorem X1_distance_symmetric (lat1 lng1 lat2 lng2 : R) :
  Geo.distance lat1 lng1 lat2 lng2 = Geo.distance lat2 lng2 lat1 lng1.
Proof. unfold Geo.distance. rewrite cos_angle_sym. reflexivity. Qed.

Lemma cos_full_turn (x : R) : cos (x + 2 * PI) = cos x.
Proof.
  replace (x + 2 * PI) with (x + PI + PI) by lra.
  rewrite !neg_cos. lra.
Qed.

Lemma radians_full_turn (x : R) : Geo.radians (x + 360) = Geo.radians x + 2 * PI.
Proof. unfold Geo.radians. lra. Qed.

(** X2: a longitude is taken modulo 360 degrees: a full turn added to
    the longitude of the row or of the centre leaves the distance
    unchanged. *)
Theorem X2_distance_longitude_full_turn (latitude longitude lat lng : R) :
  Geo.distance latitude longitude lat (lng + 360)
  = Geo.distance latitude longitude lat lng
  /\ Geo.distance latitude (longitude + 360) lat lng
     = Geo.distance latitude longitude lat lng.
Proof.
  unfold Geo.distance, Geo.cos_angle. rewrite !radians_full_turn. split.
  - replace (Geo.radians lng + 2 * PI - Geo.radians longitude)
      with (Geo.radians lng - Geo.radians longitude + 2 * PI) by lra.
    rewrite cos_full_turn. reflexivity.
  - replace (Geo.radians lng - (Geo.radians longitude + 2 * PI))
      with (- (Geo.radians longitude - Geo.radians lng + 2 * PI)) by lra.
    rewrite cos_neg, cos_full_turn.
    replace (Geo.radians longitude - Geo.radians lng)
      with (- (Geo.radians lng - Geo.radians longitude)) by lra.
    rewrite cos_neg. reflexivity.
Qed.

End DistanceFacts.

(** ** The answer of a search *)

Section SearchAnswer.
Local Open Scope R_scope.

Lemma matching_rows_sublist (latitude longitude radius : JS.number)
    (table : list Sound.t) :
  fst <$> Search.matching latitude longitude radius table `sublist_of` table.
Proof.
  unfold Search.matching, Search.select_distance.
  induction table as [ | row table IH]; [constructor |].
  cbn [map omap list_omap]. unfold Search.where_distance at 1.
  destruct (Search.sql_distance latitude longitude row) as [d | ];
    [destruct (Search.lt_radius d radius) | ];
    cbn [fmap list_fmap fst]; try (apply sublist_cons; exact IH).
  apply sublist_skip. exact IH.
Qed.

Lemma matching_length (latitude longitude radius : JS.number)
    (table : list Sound.t) :
  (length (Search.matching latitude longitude radius table) <= length table)%nat.
Proof.
  rewrite <- (length_fmap fst). apply sublist_length, matching_rows_sublist.
Qed.

Lemma lt_radius_mono (d r1 r2 : R) :
  r1 <= r2 -> Search.lt_radius d (JS.Num r1) = true ->
  Search.lt_radius d (JS.Num r2) = true.
Proof.
  simpl. intros Hr H. apply bool_decide_eq_true_1 in H.
  apply bool_decide_eq_true_2. lra.
Qed.

(** X3: every item of a successful answer is a row of the table with
    the distance that the query text computes for it, and that distance
    is not negative and below a thousandth of [searchRadius]. *)
Theorem X3_answer_items_are_rows_within_bound (fails : bool) (q : Search.query)
    (table : list Sound.t) (rows : list (Sound.t * R)) (r : R)
    (row : Sound.t) (d : R) :
  Search.handler fails q table
  = Sent {| status := 200; json := Recordings rows |} ->
  Search.searchRadius q = JS.Num r ->
  (row, d) ∈ rows ->
  row ∈ table
  /\ Search.sql_distance (Search.latitude q) (Search.longitude q) row = Some d
  /\ 0 <= d < r / 1000.
Proof.
  intros H Hr Hin. apply handler_200_inv in H. subst rows.
  apply elem_of_select, elem_of_matching in Hin.
  destruct Hin as (Hrow & Hd & Hlt).
  unfold Search.radius_replacement in Hlt. rewrite Hr in Hlt. simpl in Hlt.
  apply bool_decide_eq_true_1 in Hlt.
  pose proof (sql_distance_nonneg _ _ _ _ Hd). auto.
Qed.

(** X4: when the table holds at most 100 rows the limit cuts nothing:
    the answer is a rearrangement of the rows that pass the filter, each
    of them present as often as it passes. *)
Theorem X4_answer_not_cut_within_limit (fails : bool) (q : Search.query)
    (table : list Sound.t) (rows : list (Sound.t * R)) :
  Search.handler fails q table
  = Sent {| status := 200; json := Recordings rows |} ->
  (length table <= 100)%nat ->
  rows ≡ₚ Search.matching (Search.latitude q) (Search.longitude q)
            (Search.radius_replacement q) table.
Proof.
  intros H Hlen. apply handler_200_inv in H. subst rows.
  unfold Search.select. rewrite take_ge.
  - apply order_by_distance_perm.
  - rewrite order_by_distance_perm.
    pose proof (matching_length (Search.latitude q) (Search.longitude q)
                  (Search.radius_replacement q) table). lia.
Qed.

(** X5: the limit keeps the nearest rows: a row that passes the filter
    and is not in the answer is at least as far as every row of the
    answer, and the answer holds 100 rows as soon as more than 100 pass
    the filter. *)
Theorem X5_limit_keeps_the_nearest (fails : bool) (q : Search.query)
    (table : list Sound.t) (rows : list (Sound.t * R)) :
  Search.handler fails q table
  = Sent {| status := 200; json := Recordings rows |} ->
  let passing := Search.matching (Search.latitude q) (Search.longitude q)
                   (Search.radius_replacement q) table in
  (forall a b : Sound.t * R,
      a ∈ rows -> b ∈ passing -> b ∉ rows -> snd a <= snd b)
  /\ length rows = Nat.min 100 (length passing).
Proof.
  intros H passing. apply handler_200_inv in H. subst rows.
  fold passing. unfold Search.select. split.
  - intros a b Ha Hb Hnb.
    pose proof (order_by_distance_sorted passing) as Hs.
    rewrite <- (take_drop 100 (Search.order_by_distance passing)) in Hs.
    apply (StronglySorted_app_1_elem_of by_distance _ _ a b Hs Ha).
    rewrite <- (order_by_distance_perm passing) in Hb.
    rewrite <- (take_drop 100 (Search.order_by_distance passing)) in Hb.
    apply elem_of_app in Hb. destruct Hb as [Hb | Hb]; [contradiction | exact Hb].
  - rewrite length_take, order_by_distance_perm. reflexivity.
Qed.

(** X6: a larger radius never loses a row: for two searches at the same
    centre over a table of at most 100 rows, every item of the answer to
    the smaller radius is in the answer to the larger one. *)
Theorem X6_answer_grows_with_radius (q1 q2 : Search.query)
    (table : list Sound.t) (rows1 rows2 : list (Sound.t * R)) (r1 r2 : R) :
  Search.lat q1 = Search.lat q2 -> Search.lng q1 = Search.lng q2 ->
  Search.searchRadius q1 = JS.Num r1 -> Search.searchRadius q2 = JS.Num r2 ->
  r1 <= r2 ->
  (length table <= 100)%nat ->
  Search.handler false q1 table
  = Sent {| status := 200; json := Recordings rows1 |} ->
  Search.handler false q2 table
  = Sent {| status := 200; json := Recordings rows2 |} ->
  rows1 ⊆ rows2.
Proof.
  intros Hlat Hlng Hr1 Hr2 Hr Hlen H1 H2 [row d] Hin.
  apply handler_200_inv in H1. apply handler_200_inv in H2. subst rows1 rows2.
  apply elem_of_select, elem_of_matching in Hin. destruct Hin as (Hrow & Hd & Hlt).
  apply select_complete.
  - pose proof (matching_length (Search.latitude q2) (Search.longitude q2)
                  (Search.radius_replacement q2) table). lia.
  - apply elem_of_matching. split; [exact Hrow |].
    unfold Search.latitude, Search.longitude in *. rewrite <- Hlat, <- Hlng.
    split; [exact Hd |].
    unfold Search.radius_replacement in *. rewrite Hr1 in Hlt. rewrite Hr2.
    cbn [JS.div_const] in *. eapply lt_radius_mono; [ | exact Hlt]. lra.
Qed.

End SearchAnswer.

Section SearchAnswerWitnesses.
Local Open Scope R_scope.

Lemma select_two_at_origin_within (n1 n2 : string) (r : R) :
  0 < r ->
  Search.select (JS.Num 0) (JS.Num 0) (JS.Num r)
    [Scenario.row_at 1 n1 0 0; Scenario.row_at 2 n2 0 0]
  = [(Scenario.row_at 1 n1 0 0, 0); (Scenario.row_at 2 n2 0 0, 0)].
Proof.
  intros Hr. unfold Search.select.
  rewrite !matching_cons, !sql_distance_row_at, distance_same_point_origin.
  rewrite !where_distance_pass by lra.
  change (Search.matching _ _ _ []) with (@nil (Sound.t * R)).
  cbn [Search.order_by_distance Search.insert_by_distance snd].
  rewrite bool_decide_eq_true_2 by lra. reflexivity.
Qed.

(** The search of the scenario: two recordings stored at (0, 0), a
    centre at (0, 0) and a radius text that reads as [r], not zero. *)
Lemma handler_two_at_origin (text : string) (r : R) :
  JS.parseFloat text = JS.Num r -> 0 < r ->
  Search.handler false (Scenario.search "0" "0" (Some text))
    [Scenario.row_at 1 "a.webm" 0 0; Scenario.row_at 2 "b.webm" 0 0]
  = Sent {| status := 200;
            json := Recordings [(Scenario.row_at 1 "a.webm" 0 0, 0);
                                (Scenario.row_at 2 "b.webm" 0 0, 0)] |}.
Proof.
  intros Hp Hr.
  rewrite (handler_runs (Scenario.search "0" "0" (Some text)) _ 0 0 r
             eq_refl eq_refl (latitude_zero_text _ _) (longitude_zero_text _ _)).
  - rewrite select_two_at_origin_within by lra. reflexivity.
  - apply searchRadius_given; [exact Hp | lra].
Qed.

Lemma searchRadius_half :
  Search.searchRadius (Scenario.search "0" "0" (Some "0.5")) = JS.Num (1 / 2).
Proof. apply searchRadius_given; [apply parseFloat_half | lra]. Qed.

Lemma X3_witness :
  let table := [Scenario.row_at 1 "a.webm" 0 0; Scenario.row_at 2 "b.webm" 0 0] in
  let q := Scenario.search "0" "0" (Some "0.5") in
  let rows := [(Scenario.row_at 1 "a.webm" 0 0, 0); (Scenario.row_at 2 "b.webm" 0 0, 0)] in
  Search.handler false q table = Sent {| status := 200; json := Recordings rows |}
  /\ Search.searchRadius q = JS.Num (1 / 2)
  /\ (Scenario.row_at 2 "b.webm" 0 0, 0) ∈ rows
  /\ Scenario.row_at 2 "b.webm" 0 0 ∈ table
  /\ 0 <= 0 < 1 / 2 / 1000.
Proof.
  intros table q rows.
  pose proof (handler_two_at_origin "0.5" (1 / 2) parseFloat_half ltac:(lra)) as H.
  assert (Hin : (Scenario.row_at 2 "b.webm" 0 0, 0) ∈ rows).
  { apply list_elem_of_further, list_elem_of_here. }
  destruct (X3_answer_items_are_rows_within_bound false q table rows (1 / 2)
              (Scenario.row_at 2 "b.webm" 0 0) 0 H searchRadius_half Hin)
    as (Hrow & _ & Hd).
  exact (conj H (conj searchRadius_half (conj Hin (conj Hrow Hd)))).
Defined.

Lemma X4_witness :
  let table := [Scenario.row_at 1 "a.webm" 0 0; Scenario.row_at 2 "b.webm" 0 0] in
  let q := Scenario.search "0" "0" (Some "0.5") in
  let rows := [(Scenario.row_at 1 "a.webm" 0 0, 0); (Scenario.row_at 2 "b.webm" 0 0, 0)] in
  Search.handler false q table = Sent {| status := 200; json := Recordings rows |}
  /\ (length table <= 100)%nat
  /\ rows ≡ₚ Search.matching (Search.latitude q) (Search.longitude q)
               (Search.radius_replacement q) table.
Proof.
  intros table q rows.
  pose proof (handler_two_at_origin "0.5" (1 / 2) parseFloat_half ltac:(lra)) as H.
  assert (Hlen : (length table <= 100)%nat) by (simpl; lia).
  exact (conj H (conj Hlen
           (X4_answer_not_cut_within_limit false q table rows H Hlen))).
Defined.

Lemma X5_witness :
  let table := [Scenario.row_at 1 "a.webm" 0 0; Scenario.row_at 2 "b.webm" 0 0] in
  let q := Scenario.search "0" "0" (Some "0.5") in
  let rows := [(Scenario.row_at 1 "a.webm" 0 0, 0); (Scenario.row_at 2 "b.webm" 0 0, 0)] in
  Search.handler false q table = Sent {| status := 200; json := Recordings rows |}
  /\ length rows
     = Nat.min 100 (length (Search.matching (Search.latitude q) (Search.longitude q)
                              (Search.radius_replacement q) table)).
Proof.
  intros table q rows.
  pose proof (handler_two_at_origin "0.5" (1 / 2) parseFloat_half ltac:(lra)) as H.
  destruct (X5_limit_keeps_the_nearest false q table rows H) as [_ Hl].
  exact (conj H Hl).
Defined.


(** A recording at the centre and one 111 m away: the second one passes
    the filter only when the bound exceeds its distance. *)
Lemma handler_near_and_far (text : string) (r : R) :
  JS.parseFloat text = JS.Num r -> 0 < r ->
  let near := Scenario.row_at 1 "a.webm" 0 0 in
  let far := Scenario.row_at 2 "b.webm" 0 (1 / 1000) in
  Search.handler false (Scenario.search "0" "0" (Some text)) [near; far]
  = Sent {| status := 200;
            json := Recordings
                      (if bool_decide (6371 * (PI / 180000) < r / 1000)
                       then [(near, 0); (far, 6371 * (PI / 180000))]
                       else [(near, 0)]) |}.
Proof.
  intros Hp Hr near far.
  rewrite (handler_runs (Scenario.search "0" "0" (Some text)) _ 0 0 r
             eq_refl eq_refl (latitude_zero_text _ _) (longitude_zero_text _ _))
    by (apply searchRadius_given; [exact Hp | lra]).
  unfold Search.select, near, far.
  rewrite !matching_cons, !sql_distance_row_at.
  rewrite distance_same_point_origin, distance_thousandth_degree.
  rewrite where_distance_pass by lra.
  change (Search.matching _ _ _ []) with (@nil (Sound.t * R)).
  pose proof PI_bounds.
  case_bool_decide as Hfar.
  - rewrite where_distance_pass by exact Hfar.
    cbn [Search.order_by_distance Search.insert_by_distance snd].
    rewrite bool_decide_eq_true_2 by lra. reflexivity.
  - rewrite where_distance_fail by lra. reflexivity.
Qed.

Lemma X6_witness :
  let near := Scenario.row_at 1 "a.webm" 0 0 in
  let far := Scenario.row_at 2 "b.webm" 0 (1 / 1000) in
  let q1 := Scenario.search "0" "0" (Some "0.5") in
  let q2 := Scenario.search "0" "0" (Some "200") in
  let rows1 := [(near, 0)] in
  let rows2 := [(near, 0); (far, 6371 * (PI / 180000))] in
  Search.searchRadius q1 = JS.Num (1 / 2) /\ Search.searchRadius q2 = JS.Num 200
  /\ 1 / 2 <= 200
  /\ (length [near; far] <= 100)%nat
  /\ Search.handler false q1 [near; far]
     = Sent {| status := 200; json := Recordings rows1 |}
  /\ Search.handler false q2 [near; far]
     = Sent {| status := 200; json := Recordings rows2 |}
  /\ rows1 ⊆ rows2.
Proof.
  intros near far q1 q2 rows1 rows2.
  pose proof PI_bounds as Hpi.
  assert (H1 : Search.handler false q1 [near; far]
               = Sent {| status := 200; json := Recordings rows1 |}).
  { pose proof (handler_near_and_far "0.5" (1 / 2) parseFloat_half ltac:(lra)) as E.
    cbv zeta in E. unfold q1, near, far. rewrite E.
    rewrite bool_decide_eq_false_2 by lra. reflexivity. }
  assert (H2 : Search.handler false q2 [near; far]
               = Sent {| status := 200; json := Recordings rows2 |}).
  { pose proof (handler_near_and_far "200" 200 parseFloat_200 ltac:(lra)) as E.
    cbv zeta in E. unfold q2, near, far. rewrite E.
    rewrite bool_decide_eq_true_2 by lra. reflexivity. }
  assert (Hr2 : Search.searchRadius q2 = JS.Num 200).
  { apply searchRadius_given; [apply parseFloat_200 | lra]. }
  assert (Hr : 1 / 2 <= 200) by lra.
  assert (Hlen : (length [near; far] <= 100)%nat) by (simpl; lia).
  pose proof (X6_answer_grows_with_radius q1 q2 [near; far] rows1 rows2 (1 / 2) 200
                eq_refl eq_refl searchRadius_half Hr2 Hr Hlen H1 H2) as Hsub.
  exact (conj searchRadius_half (conj Hr2
           (conj Hr (conj Hlen (conj H1 (conj H2 Hsub)))))).
Defined.

End SearchAnswerWitnesses.

(** ** The effect of an ingestion request on the store *)

Section IngestEffect.

(** Every run of the route on a request with a file part falls in one of
    three cases: nothing of the request stays; the file stays without a
    row and nothing is answered; a row and its file are added and the
    answer is 201. *)
Lemma route_effect (c : Upload.clock) (ft : Ingest.faults) (p : Upload.part)
    (b : Ingest.form) (st : store) :
  let name := Upload.storage_filename c p in
  let st' := fst (Ingest.route c ft (Some p) b st) in
  let o := snd (Ingest.route c ft (Some p) b st) in
  (Sounds st' = Sounds st
   /\ (uploads st' = uploads st \/ uploads st' = uploads st ∖ {[ name ]}
       \/ uploads st' = ({[ name ]} ∪ uploads st) ∖ {[ name ]})
   /\ exists r : response, o = Sent r /\ status r <> 201)
  \/ (Sounds st' = Sounds st
      /\ uploads st' = {[ name ]} ∪ uploads st
      /\ o = Rejected
      /\ Upload.fieldname p = "audio" /\ Upload.fileFilter p = true
      /\ (Upload.bytes p <= Upload.fileSize)%N)
  \/ (Sounds st' = (Sounds st
                    ++ [Ingest.new_row (stored_file c p) (default "" (Ingest.lat b))
                          (default "" (Ingest.lng b)) (Sounds st)])%list
      /\ uploads st' = {[ name ]} ∪ uploads st
      /\ o = Sent {| status := 201;
                     json := Recording
                               (Ingest.new_row (stored_file c p)
                                  (default "" (Ingest.lat b))
                                  (default "" (Ingest.lng b)) (Sounds st)) |}
      /\ Upload.fieldname p = "audio" /\ Upload.fileFilter p = true
      /\ (Upload.bytes p <= Upload.fileSize)%N
      /\ JS.truthy (Ingest.lat b) = true /\ JS.truthy (Ingest.lng b) = true).
Proof.
  intros name st' o. subst st' o. unfold Ingest.route, Upload.single.
  fold name.
  destruct (String.eqb (Upload.fieldname p) "audio") eqn:Hfield; simpl negb; cbv iota.
  2: { left. simpl. split; [reflexivity |]. split; [left; reflexivity |].
       eexists. split; [reflexivity | simpl; lia]. }
  apply String.eqb_eq in Hfield.
  destruct (Upload.fileFilter p) eqn:Hfilter; simpl negb; cbv iota.
  2: { left. simpl. split; [reflexivity |]. split; [left; reflexivity |].
       eexists. split; [reflexivity | simpl; lia]. }
  destruct (N.ltb Upload.fileSize (Upload.bytes p)) eqn:Hsize.
  { left. simpl. split; [reflexivity |]. split; [right; left; reflexivity |].
    eexists. split; [reflexivity | simpl; lia]. }
  apply N.ltb_ge in Hsize.
  fold (stored_file c p).
  unfold Ingest.handler, Ingest.catch_block, Ingest.unlink.
  cbn [uploads Sounds Upload.filename stored_file].
  destruct (JS.truthy (Ingest.lat b)) eqn:Hlat, (JS.truthy (Ingest.lng b)) eqn:Hlng;
    cbn [negb orb];
    destruct (Ingest.create_fails ft), (Ingest.unlink1_fails ft),
             (Ingest.unlink2_fails ft);
    cbn [fst snd uploads Sounds];
    first
      [ right; right; repeat split; (reflexivity || assumption)
      | right; left; repeat split; (reflexivity || assumption)
      | left; split; [reflexivity |];
        split; [right; right; reflexivity |];
        eexists; split; [reflexivity | simpl; lia] ].
Qed.

Lemma route_no_file (c : Upload.clock) (ft : Ingest.faults) (b : Ingest.form)
    (st : store) :
  Ingest.route c ft None b st
  = (st, Sent {| status := 400; json := Error "No audio file uploaded" |}).
Proof. unfold Ingest.route. simpl. rewrite store_eta. reflexivity. Qed.

(** X7: a request never changes or removes a row of the table: either
    the table is as before and the answer is not 201, or exactly one row
    was appended and the answer is 201 with that row. *)
Theorem X7_table_is_append_only (c : Upload.clock) (ft : Ingest.faults)
    (p : option Upload.part) (b : Ingest.form) (st : store) :
  let st' := fst (Ingest.route c ft p b st) in
  let o := snd (Ingest.route c ft p b st) in
  (Sounds st' = Sounds st
   /\ forall row : Sound.t, o <> Sent {| status := 201; json := Recording row |})
  \/ (exists row : Sound.t,
        Sounds st' = (Sounds st ++ [row])%list
        /\ o = Sent {| status := 201; json := Recording row |}).
Proof.
  destruct p as [p | ].
  - destruct (route_effect c ft p b st)
      as [(Hs & _ & r & Ho & Hr) | [(Hs & _ & Ho & _) | (Hs & _ & Ho & _)]];
      cbv zeta.
    + left. split; [exact Hs |]. intros row. rewrite Ho. intros H.
      injection H as ->. simpl in Hr. contradiction.
    + left. split; [exact Hs |]. intros row. rewrite Ho. discriminate.
    + right. eexists. split; [exact Hs | exact Ho].
  - cbv zeta. rewrite route_no_file. left. split; [reflexivity |]. discriminate.
Qed.

(** X8: a request only ever touches the file that carries its own
    generated name: every other file of the directory is there
    afterwards exactly when it was there before; a request without a
    file part leaves the store as it is. *)
Theorem X8_other_files_are_untouched (c : Upload.clock) (ft : Ingest.faults)
    (b : Ingest.form) (st : store) :
  (forall p : Upload.part,
      uploads (fst (Ingest.route c ft (Some p) b st))
        ∖ {[ Upload.storage_filename c p ]}
      = uploads st ∖ {[ Upload.storage_filename c p ]})
  /\ fst (Ingest.route c ft None b st) = st.
Proof.
  split; [ | rewrite route_no_file; reflexivity].
  intros p.
  destruct (route_effect c ft p b st)
    as [(_ & [Hu | [Hu | Hu]] & _) | [(_ & Hu & _) | (_ & Hu & _)]];
    cbv zeta in Hu; rewrite Hu; set_solver.
Qed.

End IngestEffect.

(** ** When the clean-up goes wrong *)

Section IngestFailures.

Lemma route_rejected_inv (c : Upload.clock) (ft : Ingest.faults)
    (p : option Upload.part) (b : Ingest.form) (st st' : store) :
  Ingest.route c ft p b st = (st', Rejected) ->
  exists p' : Upload.part,
    p = Some p'
    /\ Sounds st' = Sounds st
    /\ uploads st' = {[ Upload.storage_filename c p' ]} ∪ uploads st.
Proof.
  intros H. destruct p as [p | ]; [ | rewrite route_no_file in H; discriminate].
  exists p. split; [reflexivity |].
  pose proof (route_effect c ft p b st) as He. cbv zeta in He. rewrite H in He.
  cbn [fst snd] in He.
  destruct He as [(_ & _ & r & Ho & _) | [(Hs & Hu & _) | (_ & _ & Ho & _)]];
    try discriminate.
  split; assumption.
Qed.

(** X9: when the handler rejects (the compensating delete failed), the
    blob of the request is in the directory and no row was written; if
    the store was consistent and the name was fresh, the store is left
    with a blob that no row refers to. *)
Theorem X9_failed_cleanup_leaves_an_orphan (c : Upload.clock)
    (ft : Ingest.faults) (p : option Upload.part) (b : Ingest.form)
    (st st' : store) :
  consistent st ->
  (forall p' : Upload.part, p = Some p' ->
     Upload.storage_filename c p' ∉ uploads st) ->
  Ingest.route c ft p b st = (st', Rejected) ->
  exists p' : Upload.part,
    p = Some p'
    /\ Sounds st' = Sounds st
    /\ Upload.storage_filename c p' ∈ uploads st'
    /\ (forall row : Sound.t,
          row ∈ Sounds st' -> Sound.filename row <> Upload.storage_filename c p')
    /\ ~ consistent st'.
Proof.
  intros Hc Hfresh H. apply route_rejected_inv in H.
  destruct H as (p' & -> & Hs & Hu). specialize (Hfresh p' eq_refl).
  exists p'. split; [reflexivity |]. split; [exact Hs |].
  assert (Hin : Upload.storage_filename c p' ∈ uploads st')
    by (rewrite Hu; set_solver).
  assert (Hrows : forall row : Sound.t,
             row ∈ Sounds st' ->
             Sound.filename row <> Upload.storage_filename c p').
  { intros row Hrow Hname. rewrite Hs in Hrow. apply Hfresh.
    apply (Hc (Upload.storage_filename c p')). exists row. auto. }
  split; [exact Hin |]. split; [exact Hrows |].
  intros Hc'. apply (Hc' _) in Hin. destruct Hin as (row & Hrow & Hname).
  exact (Hrows row Hrow Hname).
Qed.

Lemma X9_witness :
  let ft := {| Ingest.create_fails := true;
               Ingest.unlink1_fails := true;
               Ingest.unlink2_fails := false |} in
  let p := Scenario.webm 2048 in
  let name := Upload.storage_filename Scenario.at_noon p in
  let st' := {| uploads := {[ name ]} ∪ ∅; Sounds := [] |} in
  consistent Scenario.empty_store
  /\ Ingest.route Scenario.at_noon ft (Some p) (Scenario.coordinates "1" "1")
       Scenario.empty_store = (st', Rejected)
  /\ name ∈ uploads st' /\ ~ consistent st'.
Proof.
  intros ft p name st'.
  assert (Hfresh : forall p' : Upload.part, Some p = Some p' ->
            Upload.storage_filename Scenario.at_noon p'
              ∉ uploads Scenario.empty_store).
  { intros p' _. simpl. apply not_elem_of_empty. }
  assert (Hrun : Ingest.route Scenario.at_noon ft (Some p)
                   (Scenario.coordinates "1" "1") Scenario.empty_store
                 = (st', Rejected)) by reflexivity.
  destruct (X9_failed_cleanup_leaves_an_orphan Scenario.at_noon ft (Some p)
              (Scenario.coordinates "1" "1") Scenario.empty_store st'
              consistent_empty Hfresh Hrun)
    as (p' & Hp & _ & Hin & _ & Hnot).
  injection Hp as <-.
  exact (conj consistent_empty (conj Hrun (conj Hin Hnot))).
Defined.

(** X10: the name must be fresh.  When the generated name is already
    the file of a row and the metadata write fails, the compensating
    delete removes that file: the answer is 500, the older row stays and
    its blob is gone. *)
Theorem X10_name_collision_deletes_an_older_blob (c : Upload.clock)
    (ft : Ingest.faults) (p : Upload.part) (b : Ingest.form) (st : store) :
  consistent st ->
  Upload.storage_filename c p ∈ uploads st ->
  Upload.fieldname p = "audio" -> Upload.fileFilter p = true ->
  (Upload.bytes p <= Upload.fileSize)%N ->
  JS.truthy (Ingest.lat b) = true -> JS.truthy (Ingest.lng b) = true ->
  Ingest.create_fails ft = true -> Ingest.unlink1_fails ft = false ->
  let st' := fst (Ingest.route c ft (Some p) b st) in
  snd (Ingest.route c ft (Some p) b st)
  = Sent {| status := 500; json := Error "Failed to save recording" |}
  /\ Sounds st' = Sounds st
  /\ (Upload.storage_filename c p ∉ uploads st')
  /\ (exists row : Sound.t,
        row ∈ Sounds st' /\ Sound.filename row = Upload.storage_filename c p)
  /\ ~ consistent st'.
Proof.
  intros Hc Hin Hfield Hfilter Hsize Hlat Hlng Hcreate Hunlink st'.
  assert (Hrun : Ingest.route c ft (Some p) b st
                 = ({| uploads := ({[ Upload.storage_filename c p ]} ∪ uploads st)
                                  ∖ {[ Upload.storage_filename c p ]};
                       Sounds := Sounds st |},
                    Sent {| status := 500; json := Error "Failed to save recording" |})).
  { unfold Ingest.route, Upload.single.
    rewrite Hfield, Hfilter. cbn [String.eqb Ascii.eqb Bool.eqb negb].
    apply N.ltb_ge in Hsize. rewrite Hsize.
    unfold Ingest.handler, Ingest.catch_block, Ingest.unlink. cbn [uploads Sounds].
    rewrite Hlat, Hlng, Hcreate, Hunlink. reflexivity. }
  subst st'. rewrite Hrun. cbn [fst snd uploads Sounds].
  split; [reflexivity |]. split; [reflexivity |].
  assert (Hgone : Upload.storage_filename c p
                    ∉ ({[ Upload.storage_filename c p ]} ∪ uploads st)
                      ∖ {[ Upload.storage_filename c p ]}) by set_solver.
  assert (Hrow : exists row : Sound.t,
             row ∈ Sounds st /\ Sound.filename row = Upload.storage_filename c p)
    by (apply (Hc _); exact Hin).
  split; [exact Hgone |]. split; [exact Hrow |].
  intros Hc'. apply Hgone. apply (Hc' _). exact Hrow.
Qed.

End IngestFailures.

Section IngestFailureWitnesses.

Lemma X10_witness :
  let p := Scenario.webm 2048 in
  let name := Upload.storage_filename Scenario.at_noon p in
  let st := {| uploads := {[ name ]}; Sounds := [Scenario.row_at 1 name 0 0] |} in
  let ft := {| Ingest.create_fails := true;
               Ingest.unlink1_fails := false;
               Ingest.unlink2_fails := false |} in
  let st' := fst (Ingest.route Scenario.at_noon ft (Some p)
                    (Scenario.coordinates "1" "1") st) in
  consistent st /\ name ∈ uploads st
  /\ (Upload.bytes p <= Upload.fileSize)%N
  /\ Sounds st' = Sounds st
  /\ (name ∉ uploads st')
  /\ ~ consistent st'.
Proof.
  intros p name st ft st'.
  assert (Hc : consistent st) by (apply consistent_one_row; reflexivity).
  assert (Hin : name ∈ uploads st)
    by (unfold st; cbn [uploads]; apply elem_of_singleton_2; reflexivity).
  assert (Hsize : (Upload.bytes p <= Upload.fileSize)%N) by discriminate.
  destruct (X10_name_collision_deletes_an_older_blob Scenario.at_noon ft p
              (Scenario.coordinates "1" "1") st Hc Hin eq_refl eq_refl Hsize
              eq_refl eq_refl eq_refl eq_refl)
    as (_ & Hs & Hgone & _ & Hnot).
  exact (conj Hc (conj Hin (conj Hsize (conj Hs (conj Hgone Hnot))))).
Defined.

End IngestFailureWitnesses.

(** ** Missing coordinates *)

Section MissingCoordinates.

(** X11: a request with a stored file and without [lat] or [lng] never
    writes a row.  The blob is deleted and the answer is 400 when the
    delete succeeds; when it throws, the [catch] block deletes again and
    the answer is 500, not 400; when that throws too, nothing is
    answered and the blob stays. *)
Theorem X11_missing_coordinates_outcomes (ft : Ingest.faults) (f : Upload.file)
    (b : Ingest.form) (st : store) :
  JS.truthy (Ingest.lat b) = false \/ JS.truthy (Ingest.lng b) = false ->
  let deleted := {| uploads := uploads st ∖ {[ Upload.filename f ]};
                    Sounds := Sounds st |} in
  Sounds (fst (Ingest.handler ft (Some f) b st)) = Sounds st
  /\ (Ingest.unlink1_fails ft = false ->
      Ingest.handler ft (Some f) b st
      = (deleted, Sent {| status := 400; json := Error "Missing coordinates" |}))
  /\ (Ingest.unlink1_fails ft = true -> Ingest.unlink2_fails ft = false ->
      Ingest.handler ft (Some f) b st
      = (deleted, Sent {| status := 500; json := Error "Failed to save recording" |}))
  /\ (Ingest.unlink1_fails ft = true -> Ingest.unlink2_fails ft = true ->
      Ingest.handler ft (Some f) b st = (st, Rejected)).
Proof.
  intros Hmiss deleted.
  assert (Hcond : negb (JS.truthy (Ingest.lat b)) || negb (JS.truthy (Ingest.lng b))
                  = true).
  { destruct Hmiss as [-> | ->]; [reflexivity | apply orb_true_r]. }
  unfold Ingest.handler, Ingest.catch_block, Ingest.unlink. rewrite Hcond.
  destruct (Ingest.unlink1_fails ft), (Ingest.unlink2_fails ft);
    cbn [fst Sounds]; rewrite ?store_eta;
    (split; [reflexivity |]); repeat split; intros; try discriminate; reflexivity.
Qed.

Lemma X11_witness :
  let f := stored_file Scenario.at_noon (Scenario.webm 2048) in
  let b := {| Ingest.lat := Some "1"; Ingest.lng := None |} in
  let ft := {| Ingest.create_fails := false;
               Ingest.unlink1_fails := true;
               Ingest.unlink2_fails := false |} in
  let st := {| uploads := {[ Upload.filename f ]}; Sounds := [] |} in
  (JS.truthy (Ingest.lat b) = false \/ JS.truthy (Ingest.lng b) = false)
  /\ Ingest.handler ft (Some f) b st
     = ({| uploads := uploads st ∖ {[ Upload.filename f ]}; Sounds := [] |},
        Sent {| status := 500; json := Error "Failed to save recording" |}).
Proof.
  intros f b ft st.
  assert (H : JS.truthy (Ingest.lat b) = false \/ JS.truthy (Ingest.lng b) = false)
    by (right; reflexivity).
  destruct (X11_missing_coordinates_outcomes ft f b st H) as (_ & _ & H500 & _).
  exact (conj H (H500 eq_refl eq_refl)).
Defined.

End MissingCoordinates.

(** ** What the table and the answers can hold *)

Section Catalogue.
Local Open Scope R_scope.

Lemma new_row_admitted (c : Upload.clock) (p : Upload.part) (lat lng : string)
    (table : list Sound.t) :
  Upload.fileFilter p = true -> (Upload.bytes p <= Upload.fileSize)%N ->
  admitted_row (Ingest.new_row (stored_file c p) lat lng table).
Proof.
  intros Hfilter Hsize. unfold admitted_row. simpl.
  split; [ | split; [exact Hsize | reflexivity]].
  unfold Upload.fileFilter in Hfilter. apply bool_decide_eq_true_1 in Hfilter.
  exact Hfilter.
Qed.

Lemma reachable_admitted (st : store) :
  reachable st -> Forall admitted_row (Sounds st).
Proof.
  induction 1 as [ | st c ft p b Hr IH]; [constructor |].
  destruct p as [p | ]; [ | rewrite route_no_file; exact IH].
  destruct (route_effect c ft p b st)
    as [(Hs & _) | [(Hs & _) | (Hs & _ & _ & _ & Hfilter & Hsize & _)]];
    cbv zeta in Hs; rewrite Hs; try exact IH.
  apply Forall_app. split; [exact IH |].
  constructor; [ | constructor]. apply new_row_admitted; assumption.
Qed.

(** X12: whatever the requests and the faults, every row of the table
    has one of the three allowed content types, a size of at most
    10 MiB, and the url [/uploads/] followed by its file name. *)
Theorem X12_rows_respect_the_upload_policy (st : store) (row : Sound.t) :
  reachable st -> row ∈ Sounds st ->
  Sound.mimetype row ∈ ["audio/mpeg"; "audio/wav"; "audio/webm"]
  /\ (Sound.size row <= 10 * 1024 * 1024)%N
  /\ Sound.url row = "/uploads/" ++ Sound.filename row.
Proof.
  intros Hr Hrow. pose proof (reachable_admitted st Hr) as Hall.
  rewrite Forall_forall in Hall. exact (Hall row Hrow).
Qed.

Lemma X12_witness :
  let st := fst (Ingest.route Scenario.at_noon Scenario.no_fault
                   (Some (Scenario.webm 2048)) (Scenario.coordinates "1" "1")
                   Scenario.empty_store) in
  let row := Ingest.new_row (stored_file Scenario.at_noon (Scenario.webm 2048))
               "1" "1" [] in
  reachable st /\ row ∈ Sounds st
  /\ Sound.mimetype row ∈ ["audio/mpeg"; "audio/wav"; "audio/webm"]
  /\ (Sound.size row <= 10 * 1024 * 1024)%N.
Proof.
  intros st row.
  assert (Hr : reachable st) by (apply reachable_route, reachable_empty).
  assert (Hrow : row ∈ Sounds st) by (apply list_elem_of_singleton; reflexivity).
  destruct (X12_rows_respect_the_upload_policy st row Hr Hrow) as (Hm & Hs & _).
  exact (conj Hr (conj Hrow (conj Hm Hs))).
Defined.

Lemma route_sent_consistent (c : Upload.clock) (ft : Ingest.faults)
    (p : option Upload.part) (b : Ingest.form) (st st' : store) (r : response) :
  consistent st ->
  (forall p' : Upload.part, p = Some p' ->
     Upload.storage_filename c p' ∉ uploads st) ->
  Ingest.route c ft p b st = (st', Sent r) ->
  consistent st'.
Proof.
  intros Hc Hfresh H.
  destruct p as [p | ].
  2: { rewrite route_no_file in H. injection H as <- _. exact Hc. }
  specialize (Hfresh p eq_refl).
  pose proof (route_effect c ft p b st) as He. cbv zeta in He. rewrite H in He.
  cbn [fst snd] in He.
  destruct He as [(Hs & Hu & _) | [(_ & _ & Ho & _) | (Hs & Hu & _)]];
    [ | discriminate | ].
  - assert (Hsame : uploads st' = uploads st).
    { destruct Hu as [Hu | [Hu | Hu]]; rewrite Hu;
        [reflexivity | apply remove_absent | apply unlink_fresh]; exact Hfresh. }
    intros n. rewrite Hsame, Hs. apply Hc.
  - intros n. rewrite Hs, Hu.
    apply (consistent_created (Upload.storage_filename c p)
             (Ingest.new_row (stored_file c p) (default "" (Ingest.lat b))
                (default "" (Ingest.lng b)) (Sounds st)) st eq_refl Hc n).
Qed.

Lemma settled_consistent (st : store) : settled st -> consistent st.
Proof.
  induction 1 as [ | st st' c ft p b r Hs IH Hfresh Hrun].
  - apply consistent_empty.
  - eapply route_sent_consistent; eassumption.
Qed.

Lemma settled_reachable (st : store) : settled st -> reachable st.
Proof.
  induction 1 as [ | st st' c ft p b r Hs IH Hfresh Hrun].
  - constructor.
  - replace st' with (fst (Ingest.route c ft p b st)) by (rewrite Hrun; reflexivity).
    constructor. exact IH.
Qed.

(** X13: after any sequence of answered ingestion requests with fresh
    names, every recording in the answer of a search has its blob in
    the upload directory, under the name that its url ends with. *)
Theorem X13_found_recordings_have_their_blob (st : store) (fails : bool)
    (q : Search.query) (rows : list (Sound.t * R)) (row : Sound.t) (d : R) :
  settled st ->
  Search.handler fails q (Sounds st)
  = Sent {| status := 200; json := Recordings rows |} ->
  (row, d) ∈ rows ->
  Sound.filename row ∈ uploads st
  /\ Sound.url row = "/uploads/" ++ Sound.filename row.
Proof.
  intros Hs H Hin. apply handler_200_inv in H. subst rows.
  apply elem_of_select, elem_of_matching in Hin. destruct Hin as (Hrow & _).
  split.
  - apply (settled_consistent st Hs). exists row. auto.
  - pose proof (reachable_admitted st (settled_reachable st Hs)) as Hall.
    rewrite Forall_forall in Hall. apply Hall in Hrow. apply Hrow.
Qed.

End Catalogue.

Section RoundTrip.
Local Open Scope R_scope.

(** An accepted upload at (0, 0) into the empty store. *)
Lemma route_first_at_origin :
  let name := Upload.storage_filename Scenario.at_noon (Scenario.webm 2048) in
  Ingest.route Scenario.at_noon Scenario.no_fault (Some (Scenario.webm 2048))
    (Scenario.coordinates "0" "0") Scenario.empty_store
  = ({| uploads := {[ name ]} ∪ ∅; Sounds := [Scenario.row_at 1 name 0 0] |},
     Sent {| status := 201; json := Recording (Scenario.row_at 1 name 0 0) |}).
Proof.
  intros name.
  pose proof (route_effect Scenario.at_noon Scenario.no_fault (Scenario.webm 2048)
                (Scenario.coordinates "0" "0") Scenario.empty_store) as He.
  cbv zeta in He.
  destruct He as [(_ & _ & r & Ho & Hr) | [(_ & _ & Ho & _) | (Hs & Hu & Ho & _)]].
  - exfalso. apply Hr. cbv in Ho. injection Ho as <-. reflexivity.
  - discriminate Ho.
  - assert (Hrow : Ingest.new_row
                     (stored_file Scenario.at_noon (Scenario.webm 2048))
                     (default "" (Ingest.lat (Scenario.coordinates "0" "0")))
                     (default "" (Ingest.lng (Scenario.coordinates "0" "0")))
                     (Sounds Scenario.empty_store)
                   = Scenario.row_at 1 name 0 0).
    { unfold Ingest.new_row, Scenario.row_at.
      change (default "" (Ingest.lat (Scenario.coordinates "0" "0"))) with "0".
      change (default "" (Ingest.lng (Scenario.coordinates "0" "0"))) with "0".
      rewrite parseFloat_0. reflexivity. }
    rewrite Hrow in Hs, Ho.
    destruct (Ingest.route Scenario.at_noon Scenario.no_fault
                (Some (Scenario.webm 2048)) (Scenario.coordinates "0" "0")
                Scenario.empty_store) as [st' o].
    cbn [fst snd] in Hs, Hu, Ho. destruct st' as [dir rows].
    cbn [uploads Sounds] in Hs, Hu. subst dir rows o. reflexivity.
Qed.

Lemma X13_witness :
  let name := Upload.storage_filename Scenario.at_noon (Scenario.webm 2048) in
  let row := Scenario.row_at 1 name 0 0 in
  let st := {| uploads := {[ name ]} ∪ ∅; Sounds := [row] |} in
  settled st
  /\ Search.handler false (Scenario.search "0" "0" (Some "0.5")) (Sounds st)
     = Sent {| status := 200; json := Recordings [(row, 0)] |}
  /\ (row, 0) ∈ [(row, 0)]
  /\ Sound.filename row ∈ uploads st.
Proof.
  intros name row st.
  assert (Hs : settled st).
  { eapply (settled_route Scenario.empty_store st Scenario.at_noon Scenario.no_fault
              (Some (Scenario.webm 2048)) (Scenario.coordinates "0" "0")).
    - apply settled_empty.
    - intros p' _. simpl. apply not_elem_of_empty.
    - apply route_first_at_origin. }
  assert (H : Search.handler false (Scenario.search "0" "0" (Some "0.5")) (Sounds st)
              = Sent {| status := 200; json := Recordings [(row, 0)] |}).
  { rewrite (handler_runs (Scenario.search "0" "0" (Some "0.5")) _ 0 0 (1 / 2)
               eq_refl eq_refl (latitude_zero_text _ _) (longitude_zero_text _ _)
               searchRadius_half).
    cbn [Sounds st]. unfold row.
    rewrite select_one_at_origin by lra. reflexivity. }
  assert (Hin : (row, 0) ∈ [(row, 0)]) by apply list_elem_of_here.
  destruct (X13_found_recordings_have_their_blob st false
              (Scenario.search "0" "0" (Some "0.5")) [(row, 0)] row 0 Hs H Hin)
    as [Hblob _].
  exact (conj Hs (conj H (conj Hin Hblob))).
Defined.

End RoundTrip.

(** ** File names *)

Section FileNames.

Lemma string_app_cons (x : ascii) (a b : string) :
  String x a ++ b = String x (a ++ b).
Proof. reflexivity. Qed.

Lemma string_app_nil (b : string) : "" ++ b = b.
Proof. reflexivity. Qed.

Lemma string_app_assoc (a b c : string) : (a ++ b) ++ c = a ++ (b ++ c).
Proof.
  induction a as [ | x a IH]; [reflexivity |].
  rewrite !string_app_cons, IH. reflexivity.
Qed.

Lemma string_app_length (a b : string) :
  String.length (a ++ b) = String.length a + String.length b.
Proof.
  induction a as [ | x a IH]; [reflexivity |].
  rewrite string_app_cons. simpl. rewrite IH. reflexivity.
Qed.

Lemma pretty_N_char_digit (x : N) : JS.is_digit (pretty_N_char x) = true.
Proof. unfold pretty_N_char. repeat case_match; reflexivity. Qed.

Lemma pretty_N_go_decimal (x : N) (s : string) :
  decimal_text s -> decimal_text (pretty_N_go x s).
Proof.
  revert s. induction (N.lt_wf_0 x) as [x _ IH]. intros s Hs.
  destruct (N.eq_dec x 0%N) as [-> | Hx].
  - rewrite pretty_N_go_0. exact Hs.
  - rewrite pretty_N_go_step by lia. apply IH.
    + apply N.div_lt; lia.
    + split; [apply pretty_N_char_digit | exact Hs].
Qed.

Lemma pretty_N_decimal (x : N) : decimal_text (pretty x).
Proof.
  unfold pretty, pretty_N. case_decide.
  - split; [reflexivity | exact I].
  - apply pretty_N_go_decimal. exact I.
Qed.

(** A run of digits followed by something that is not a digit can be
    read back in one way only. *)
Lemma decimal_prefix_unique (d1 d2 r1 r2 : string) :
  decimal_text d1 -> decimal_text d2 ->
  no_leading_digit r1 -> no_leading_digit r2 ->
  d1 ++ r1 = d2 ++ r2 -> d1 = d2 /\ r1 = r2.
Proof.
  revert d2. induction d1 as [ | c d1 IH]; intros [ | c' d2] H1 H2 Hr1 Hr2 Heq;
    rewrite ?string_app_cons, ?string_app_nil in Heq; simpl in *.
  - auto.
  - subst r1. simpl in Hr1. destruct H2 as [H2 _]. congruence.
  - subst r2. simpl in Hr2. destruct H1 as [H1 _]. congruence.
  - injection Heq as -> Heq. destruct H1 as [_ H1], H2 as [_ H2].
    destruct (IH d2 H1 H2 Hr1 Hr2 Heq) as [-> ->]. auto.
Qed.

Lemma extension_no_leading_digit (e : string) :
  extension_shape e -> no_leading_digit e.
Proof. intros [-> | [rest ->]]; [exact I | reflexivity]. Qed.

(** X14: the stored name determines the clock value, the random
    component and the extension from which it was made: two uploads are
    given the same name only when [Date.now()], the rounded random
    number and the extension all coincide. *)
Theorem X14_storage_filename_is_injective (c1 c2 : Upload.clock)
    (p1 p2 : Upload.part) :
  extension_shape (Upload.extension p1) ->
  extension_shape (Upload.extension p2) ->
  Upload.storage_filename c1 p1 = Upload.storage_filename c2 p2 ->
  Upload.now c1 = Upload.now c2
  /\ Upload.random c1 = Upload.random c2
  /\ Upload.extension p1 = Upload.extension p2.
Proof.
  intros He1 He2. unfold Upload.storage_filename, Upload.uniqueSuffix.
  rewrite !string_app_assoc. intros H.
  apply decimal_prefix_unique in H;
    [ | apply pretty_N_decimal | apply pretty_N_decimal | reflexivity | reflexivity].
  destruct H as [Hnow H]. rewrite !string_app_cons, !string_app_nil in H.
  injection H as H.
  apply decimal_prefix_unique in H;
    [ | apply pretty_N_decimal | apply pretty_N_decimal
      | apply extension_no_leading_digit; assumption
      | apply extension_no_leading_digit; assumption].
  destruct H as [Hrandom Hext].
  split; [exact (pretty_N_inj _ _ Hnow) |].
  split; [exact (pretty_N_inj _ _ Hrandom) | exact Hext].
Qed.

Lemma X14_witness :
  let c := Scenario.at_noon in
  let p := Scenario.webm 2048 in
  extension_shape (Upload.extension p)
  /\ Upload.storage_filename c p = "1700000000000-123456789.webm"
  /\ Upload.now c = Upload.now c.
Proof.
  intros c p.
  assert (He : extension_shape (Upload.extension p))
    by (right; exists "webm"; reflexivity).
  destruct (X14_storage_filename_is_injective c c p p He He eq_refl) as (Hnow & _).
  exact (conj He (conj eq_refl Hnow)).
Defined.

Lemma substring_all (s : string) : substring 0 (String.length s) s = s.
Proof. induction s as [ | c s IH]; simpl; [reflexivity | rewrite IH; reflexivity]. Qed.

Lemma substring_skip (a b : string) :
  substring (String.length a) (String.length b) (a ++ b) = b.
Proof.
  induction a as [ | c a IH]; [apply substring_all |].
  rewrite string_app_cons. simpl. exact IH.
Qed.

Lemma endsWith_append (a b : string) : Static.endsWith (a ++ b) b = true.
Proof.
  unfold Static.endsWith. rewrite string_app_length.
  replace (String.length b <=? String.length a + String.length b)%nat with true
    by (symmetry; apply Nat.leb_le; lia).
  replace (String.length a + String.length b - String.length b)%nat
    with (String.length a) by lia.
  rewrite substring_skip. apply String.eqb_refl.
Qed.

(** X15: an upload whose original name has the extension [.webm] is
    stored under a name for which the static handler sets the content
    type [audio/webm], in whatever directory the uploads are kept. *)
Theorem X15_stored_webm_is_served_as_webm (dir : string) (c : Upload.clock)
    (p : Upload.part) :
  Upload.extension p = ".webm" ->
  Static.setHeaders (dir ++ "/" ++ Upload.storage_filename c p)
  = Some "audio/webm".
Proof.
  intros He. unfold Static.setHeaders, Upload.storage_filename. rewrite He.
  rewrite <- !string_app_assoc. rewrite endsWith_append. reflexivity.
Qed.

Lemma X15_witness :
  Upload.extension (Scenario.webm 2048) = ".webm"
  /\ Static.setHeaders
       ("/srv/uploads" ++ "/"
        ++ Upload.storage_filename Scenario.at_noon (Scenario.webm 2048))
     = Some "audio/webm".
Proof.
  exact (conj eq_refl
           (X15_stored_webm_is_served_as_webm "/srv/uploads" Scenario.at_noon
              (Scenario.webm 2048) eq_refl)).
Defined.

End FileNames.

(** ** The store over a sequence of requests *)

Section Sequences.

Lemma settled_names_distinct (st : store) :
  settled st -> NoDup (Sound.filename <$> Sounds st).
Proof.
  induction 1 as [ | st st' c ft p b r Hs IH Hfresh Hrun]; [constructor |].
  pose proof (settled_consistent st Hs) as Hc.
  destruct p as [p | ].
  2: { rewrite route_no_file in Hrun. injection Hrun as <- _. exact IH. }
  specialize (Hfresh p eq_refl).
  pose proof (route_effect c ft p b st) as He. cbv zeta in He. rewrite Hrun in He.
  cbn [fst snd] in He.
  destruct He as [(Hrows & _) | [(_ & _ & Ho & _) | (Hrows & _)]];
    [ | discriminate | ]; rewrite Hrows; [exact IH |].
  rewrite fmap_app. apply NoDup_app. split; [exact IH |].
  split; [ | apply NoDup_singleton].
  intros n Hn Hn'. apply list_elem_of_singleton in Hn'. simpl in Hn'. subst n.
  apply Hfresh. apply (Hc _).
  apply list_elem_of_fmap in Hn. destruct Hn as (row & Hname & Hrow).
  exists row. auto.
Qed.

(** X16: after any sequence of answered ingestion requests with fresh
    names, the files of the upload directory are exactly the files of
    the rows, and no two rows refer to the same file. *)
Theorem X16_answered_requests_keep_rows_and_blobs_paired (st : store) :
  settled st ->
  consistent st /\ NoDup (Sound.filename <$> Sounds st).
Proof.
  intros Hs. split; [apply settled_consistent | apply settled_names_distinct];
    exact Hs.
Qed.

Lemma X16_witness :
  let name := Upload.storage_filename Scenario.at_noon (Scenario.webm 2048) in
  let st := {| uploads := {[ name ]} ∪ ∅;
               Sounds := [Scenario.row_at 1 name 0 0] |} in
  settled st /\ consistent st /\ NoDup (Sound.filename <$> Sounds st).
Proof.
  intros name st.
  assert (Hs : settled st).
  { eapply (settled_route Scenario.empty_store st Scenario.at_noon Scenario.no_fault
              (Some (Scenario.webm 2048)) (Scenario.coordinates "0" "0")).
    - apply settled_empty.
    - intros p' _. simpl. apply not_elem_of_empty.
    - apply route_first_at_origin. }
  exact (conj Hs (X16_answered_requests_keep_rows_and_blobs_paired st Hs)).
Defined.

End Sequences.
